(** * Juice-Server: the transform pipeline and its HTTP adapters

    A shallow embedding of [api/index.js].  The service inlines the embedded
    stylesheets of an HTML document (through the [juice] package), replaces
    every element identifier that starts with the letter i by a
    UUID-based one (through [cheerio] and [uuid]) and serves the result over
    four Express routes behind a CORS middleware.

    The third-party engines are not part of the repository, so they appear
    here as the variables of a section: the CSS inliner, the HTML parser
    and serialiser, the behaviour of the selector engine on a selector
    text that the interpolation of an identifier made ill-formed, and
    what the framework computes on its own when it sends an answer (the
    charset of the content type, the freshness of a conditional request,
    its page for an unknown route). *)

From Stdlib Require Import Ascii.
From stdpp Require Import gmap strings list pretty.

Local Open Scope string_scope.
Set Warnings "-register-all".

(** ** JavaScript values, as far as the request body needs them *)

Module Js.

Inductive value : Type :=
| Undefined
| Null
| Bool (b : bool)
| Num (z : Z)
| Str (s : string)
| Arr (items : list value)
| Obj (fields : list (string * value)).

(** ToBoolean: what [if (!x)] tests. *)
Definition truthy (v : value) : bool :=
  match v with
  | Undefined | Null => false
  | Bool b => b
  | Num z => negb (Z.eqb z 0)
  | Str s => negb (String.eqb s "")
  | Arr _ | Obj _ => true
  end.

(** [a || b] on an optional string such as a request header. *)
Definition or_default (o : option string) (d : string) : string :=
  match o with
  | Some s => if String.eqb s "" then d else s
  | None => d
  end.

End Js.

(** ** Errors and results *)

(** A thrown [Error]: its [message] and, for file-system errors, its [code]. *)
Record Error := mkError { message : string; code : option string }.

Inductive Result (A : Type) : Type :=
| Ok (a : A)
| Throw (e : Error).
Arguments Ok {A} a.
Arguments Throw {A} e.

(** ** The document as cheerio holds it *)

(** An element object: its tag name and its [attribs] object. *)
Record Element := mkElement { tagName : string; attribs : gmap string string }.

(** The tree refers to element objects by their index in document order;
    [processHtml] never restructures the tree, it only mutates [attribs]. *)
Inductive Node : Type :=
| NodeElement (ref : nat) (children : list Node)
| NodeText (data : string).

Record Document := mkDocument { tree : list Node; elems : list Element }.

Module Cheerio.

(** [$el.attr(name)]: the value, or [undefined]. *)
Definition attr (el : Element) (name : string) : option string :=
  attribs el !! name.

(** [$el.attr(name, value)]. *)
Definition set_attr (el : Element) (name value : string) : Element :=
  {| tagName := tagName el; attribs := <[name := value]> (attribs el) |}.

(** [if ($el.attr(name))]: present and not the empty string. *)
Definition has_attr (el : Element) (name : string) : bool :=
  match attr el name with
  | Some v => negb (String.eqb v "")
  | None => false
  end.

(** [[name="value"]]. *)
Definition attr_equals (name value : string) (el : Element) : bool :=
  match attr el name with
  | Some v => String.eqb v value
  | None => false
  end.

(** [[name^="value"]]. *)
Definition attr_starts_with (name value : string) (el : Element) : bool :=
  match attr el name with
  | Some v => String.prefix value v
  | None => false
  end.

(** [$(selector)]: the matching elements, in document order, as indices. *)
Fixpoint select_from (i : nat) (p : Element → bool) (els : list Element)
  : list nat :=
  match els with
  | [] => []
  | el :: rest =>
      if p el then i :: select_from (S i) p rest
      else select_from (S i) p rest
  end.

Definition select (p : Element → bool) (els : list Element) : list nat :=
  select_from 0 p els.

(** [selection.each(f)] where [f] mutates the element it is given. *)
Definition each (sel : list nat) (f : Element → Element)
    (els : list Element) : list Element :=
  imap (λ j el, if bool_decide (j ∈ sel) then f el else el) els.

End Cheerio.

(** ** The selector text built by interpolation *)

Definition quote : string := String (Ascii.ascii_of_nat 34) "".

(** [`[href="#${oldId}"], [for="${oldId}"]`]. *)
Definition refs_selector (oldId : string) : string :=
  "[href=" +:+ quote +:+ "#" +:+ oldId +:+ quote +:+ "], [for="
    +:+ quote +:+ oldId +:+ quote +:+ "]".

(** Inside a quoted attribute value only the quote and the backslash are
    special; an identifier without them is read back literally, once the
    text is taken for a selector at all (see [is_html]). *)
Fixpoint selector_safe (s : string) : bool :=
  match s with
  | EmptyString => true
  | String c rest =>
      negb (Nat.eqb (Ascii.nat_of_ascii c) 34)
      && negb (Nat.eqb (Ascii.nat_of_ascii c) 92)
      && selector_safe rest
  end.

(** What cheerio's [isHtml] tests before it takes the argument of [$()]
    for a selector: the first [<] of the text is followed by a letter or
    an exclamation mark, and a [>] comes later. *)
Fixpoint after_first_lt (s : string) : option string :=
  match s with
  | EmptyString => None
  | String c rest =>
      if Nat.eqb (Ascii.nat_of_ascii c) 60 then Some rest
      else after_first_lt rest
  end.

Definition is_tag_start (c : Ascii.ascii) : bool :=
  let n := Ascii.nat_of_ascii c in
  (Nat.leb 97 n && Nat.leb n 122) || (Nat.leb 65 n && Nat.leb n 90)
  || Nat.eqb n 33.

Fixpoint has_gt (s : string) : bool :=
  match s with
  | EmptyString => false
  | String c rest => Nat.eqb (Ascii.nat_of_ascii c) 62 || has_gt rest
  end.

Definition is_html (s : string) : bool :=
  match after_first_lt s with
  | Some (String c rest) => is_tag_start c && has_gt rest
  | _ => false
  end.

(** [[id^="i"]]. *)
Definition is_auto_id (el : Element) : bool :=
  Cheerio.attr_starts_with "id" "i" el.

(** [[href="#oldId"], [for="oldId"]]. *)
Definition is_ref (oldId : string) (el : Element) : bool :=
  Cheerio.attr_equals "href" ("#" +:+ oldId) el
  || Cheerio.attr_equals "for" oldId el.

(** The body of the inner [each]. *)
Definition rewrite_ref (newId : string) (ref : Element) : Element :=
  let ref1 :=
    if Cheerio.has_attr ref "href"
    then Cheerio.set_attr ref "href" ("#" +:+ newId) else ref in
  if Cheerio.has_attr ref1 "for"
  then Cheerio.set_attr ref1 "for" newId else ref1.

(** The two conventions by which the inner selector recognises a
    reference to an identifier: [href="#id"] and [for="id"]. *)
Inductive RefKind : Type := Href | For.

Definition ref_attr (c : RefKind) : string :=
  match c with Href => "href" | For => "for" end.

Definition ref_text (c : RefKind) (id : string) : string :=
  match c with Href => "#" +:+ id | For => id end.

(** The element does not carry both a non-empty [href] and a non-empty
    [for]. *)
Definition one_convention (el : Element) : Prop :=
  Cheerio.has_attr el "href" && Cheerio.has_attr el "for" = false.

(** ** The world outside the function, and a state-and-error monad over it *)

(** What the runtime is seen to do: calls into the engines, file reads,
    lines written by [console.error]. *)
Inductive Effect : Type :=
| CallJuice (input : Js.value)
| CallLoad (html : string)
| ReadFile (path : string)
| ConsoleError (label : string) (err : Error).

Record World := mkWorld {
  uuid_source : nat → string;      (* the values [uuidv4()] will return *)
  drawn : nat;                     (* how many of them were drawn so far *)
  files : string → Result string;  (* what [fs.readFile] gives for a path *)
  log : list Effect                (* oldest first *)
}.

Definition M (A : Type) : Type := World → Result A * World.

Definition ret {A} (a : A) : M A := λ w, (Ok a, w).
Definition throw {A} (e : Error) : M A := λ w, (Throw e, w).
Definition bind {A B} (m : M A) (k : A → M B) : M B :=
  λ w, match m w with
       | (Ok a, w') => k a w'
       | (Throw e, w') => (Throw e, w')
       end.
(** [try { m } catch (err) { h err }]. *)
Definition try_catch {A} (m : M A) (h : Error → M A) : M A :=
  λ w, match m w with
       | (Ok a, w') => (Ok a, w')
       | (Throw e, w') => h e w'
       end.
Definition lift {A} (r : Result A) : M A := λ w, (r, w).
Definition emit (e : Effect) : M unit :=
  λ w, (Ok tt, {| uuid_source := uuid_source w; drawn := drawn w;
                  files := files w; log := log w ++ [e] |}).

Notation "x <~ m ;; k" := (bind m (λ x, k))
  (at level 100, m at next level, right associativity).
Notation "'perform' m ;; k" := (bind m (λ _, k))
  (at level 100, m at next level, right associativity).

(** [uuidv4()]. *)
Definition uuidv4 : M string :=
  λ w, (Ok (uuid_source w (drawn w)),
        {| uuid_source := uuid_source w; drawn := S (drawn w);
           files := files w; log := log w |}).

(** [fs.readFile(path, "utf8")]. *)
Definition readFile (path : string) : M string :=
  perform emit (ReadFile path) ;; λ w, (files w path, w).

(** [console.error(label, err)]. *)
Definition console_error (label : string) (err : Error) : M unit :=
  emit (ConsoleError label err).

(** ** HTTP requests and responses *)

Record Request := mkRequest {
  method : string;
  path : string;
  req_headers : gmap string string;  (* names in lower case, as Node gives them *)
  (* [req.body] as the body-parsing middleware left it, or the error they
     passed on (a payload over the limit, JSON that does not parse) *)
  body : Result Js.value
}.

Inductive Body : Type :=
| NoBody
| Text (s : string)
| Json (v : Js.value).

(** Of the headers of an answer, those that the source names are kept;
    [Content-Type] is one of them, and the framework completes it when it
    sends. *)
Record Response := mkResponse {
  status : nat;
  res_headers : gmap string string;
  res_body : Body
}.

(** What the framework computes on its own when it answers. *)
Record Express := mkExpress {
  (* [setCharset(type, "utf-8")]: the content type with its charset
     parameter set to utf-8 *)
  set_charset : string → string;
  (* whether the validators among the request headers (If-None-Match,
     If-Modified-Since) match the entity tag computed for the payload *)
  validators_match : gmap string string → Body → bool;
  (* the error page for a request that no route matched *)
  not_found_page : Request → string
}.

Module Res.

Definition fresh : Response :=
  {| status := 200; res_headers := ∅; res_body := NoBody |}.

(** [res.header(name, value)], [res.set(name, value)]. *)
Definition header (name value : string) (res : Response) : Response :=
  {| status := status res;
     res_headers := <[name := value]> (res_headers res);
     res_body := res_body res |}.

(** [res.status(code)]. *)
Definition set_status (code : nat) (res : Response) : Response :=
  {| status := code; res_headers := res_headers res;
     res_body := res_body res |}.

(** [res.type("html")]. *)
Definition type_html (res : Response) : Response :=
  header "Content-Type" "text/html; charset=utf-8" res.

(** [req.fresh] at the time of sending: a GET or HEAD, about to be
    answered 2xx or 304, whose validators match. *)
Definition is_fresh (express : Express) (req : Request) (payload : Body)
    (res : Response) : bool :=
  (String.eqb (method req) "GET" || String.eqb (method req) "HEAD")
  && ((Nat.leb 200 (status res) && Nat.ltb (status res) 300)
      || Nat.eqb (status res) 304)
  && validators_match express (req_headers req) payload.

(** The end of [res.send]: a fresh request is answered 304; a 204 or a
    304 loses its content type and its body; a HEAD gets no body. *)
Definition finish (express : Express) (req : Request) (payload : Body)
    (res : Response) : Response :=
  let code := if is_fresh express req payload res then 304
              else status res in
  let bare := Nat.eqb code 204 || Nat.eqb code 304 in
  {| status := code;
     res_headers := if bare then delete "Content-Type" (res_headers res)
                    else res_headers res;
     res_body := if bare || String.eqb (method req) "HEAD" then NoBody
                 else payload |}.

(** [res.send(text)]: the content type is [text/html] unless one was
    set, and its charset becomes utf-8. *)
Definition send (express : Express) (req : Request) (text : string)
    (res : Response) : Response :=
  let type := default "text/html; charset=utf-8"
                (res_headers res !! "Content-Type") in
  finish express req (Text text)
    (header "Content-Type" (set_charset express type) res).

(** [res.json(value)]: the content type is [application/json] unless one
    was set; the text of the value is then sent as [res.send] does. *)
Definition json (express : Express) (req : Request) (v : Js.value)
    (res : Response) : Response :=
  let type := default "application/json; charset=utf-8"
                (res_headers res !! "Content-Type") in
  finish express req (Json v)
    (header "Content-Type" (set_charset express type) res).

(** The registered message of a status code. *)
Definition status_message (code : nat) : string :=
  match code with
  | 200 => "OK"
  | 400 => "Bad Request"
  | 404 => "Not Found"
  | 500 => "Internal Server Error"
  | _ => pretty code
  end.

(** [res.sendStatus(code)]: the status, and its message sent as plain
    text. *)
Definition sendStatus (express : Express) (req : Request) (code : nat)
    (res : Response) : Response :=
  send express req (status_message code)
    (header "Content-Type" "text/plain; charset=utf-8"
       (set_status code res)).

End Res.

(** [resp] carries every header of [res], the two content headers apart. *)
Definition keeps_headers (res resp : Response) : Prop :=
  ∀ name, name ≠ "Content-Type" → name ≠ "Content-Disposition" →
          res_headers resp !! name = res_headers res !! name.

(** ** The server *)

(** The options object handed to [juice]. *)
Record JuiceOptions := mkJuiceOptions {
  applyStyleTags : bool;
  removeStyleTags : bool;
  preserveMediaQueries : bool
}.

Inductive Route : Type :=
| GetRoot
| GetDownload
| PostProcess
| PostProcessDownload.

Module Server.
Section Engines.

(** [juice(html, options)]: the inlined document, or what it throws. *)
Variable juice : Js.value → JuiceOptions → Result string.
(** [load(html)] and [$.html()]. *)
Variable load : string → Document.
Variable html_of : Document → string.
(** [$(selector)] for a selector text in which the interpolated identifier
    carries a quote or a backslash: a parse error, or some selection. *)
Variable select_raw : string → list Element → Result (list nat).
(** How the router matches a route pattern against a request path. *)
Variable route_matches : string → string → bool.
(** The framework's own part in an answer. *)
Variable express : Express.

(** [$(`[href="#${oldId}"], [for="${oldId}"]`)].  When the text reads as
    markup, [$()] builds nodes of its own from it and the loop runs on
    these: no element of the document is selected. *)
Definition query_refs (oldId : string) (els : list Element) : M (list nat) :=
  if is_html (refs_selector oldId)
  then ret []
  else if selector_safe oldId
  then ret (Cheerio.select (is_ref oldId) els)
  else lift (select_raw (refs_selector oldId) els).

(** The outer [each] over the elements that [[id^="i"]] selected. *)
Fixpoint remap_each (sel : list nat) (els : list Element)
  : M (list Element) :=
  match sel with
  | [] => ret els
  | k :: rest =>
      match els !! k with
      | None => remap_each rest els
      | Some el =>
          let oldId := default "undefined" (Cheerio.attr el "id") in
          u <~ uuidv4 ;;
          let newId := "id-" +:+ u in
          let els1 := <[k := Cheerio.set_attr el "id" newId]> els in
          refs <~ query_refs oldId els1 ;;
          remap_each rest (Cheerio.each refs (rewrite_ref newId) els1)
      end
  end.

(** Step 2 of [processHtml]: remap the identifiers of a loaded document. *)
Definition remapIds (d : Document) : M Document :=
  els <~ remap_each (Cheerio.select is_auto_id (elems d)) (elems d) ;;
  ret {| tree := tree d; elems := els |}.

Definition juice_options : JuiceOptions :=
  {| applyStyleTags := true; removeStyleTags := true;
     preserveMediaQueries := true |}.

Definition processHtml (htmlContent : Js.value) : M string :=
  if negb (Js.truthy htmlContent)
  then throw (mkError "HTML content is required" None)
  else
    perform emit (CallJuice htmlContent) ;;
    html <~ lift (juice htmlContent juice_options) ;;
    perform emit (CallLoad html) ;;
    d <~ remapIds (load html) ;;
    ret (html_of d).

(** *** Routes *)

Definition template_path : string := "template.html".

Definition is_enoent (err : Error) : bool :=
  match code err with
  | Some c => String.eqb c "ENOENT"
  | None => false
  end.

Definition template_not_found (endpoint : string) : Js.value :=
  Js.Obj [("error", Js.Str "Template file not found");
          ("message", Js.Str ("Use POST " +:+ endpoint +:+
             " endpoint to process HTML content via API"))].

(** [app.get("/")]. *)
Definition get_root (req : Request) (res : Response)
    (next : Error → M Response) : M Response :=
  try_catch
    (htmlContent <~ readFile template_path ;;
     html <~ processHtml (Js.Str htmlContent) ;;
     ret (Res.send express req html (Res.type_html res)))
    (λ err,
       if is_enoent err
       then ret (Res.json express req (template_not_found "/process")
                   (Res.set_status 404 res))
       else next err).

(** [app.get("/download")]. *)
Definition get_download (req : Request) (res : Response)
    (next : Error → M Response) : M Response :=
  try_catch
    (htmlContent <~ readFile template_path ;;
     html <~ processHtml (Js.Str htmlContent) ;;
     ret (Res.send express req html
            (Res.header "Content-Disposition"
               ("attachment; filename=" +:+ quote +:+ "newsletter.html"
                  +:+ quote)
               (Res.header "Content-Type" "text/html; charset=UTF-8" res))))
    (λ err,
       if is_enoent err
       then ret (Res.json express req (template_not_found "/process-download")
                   (Res.set_status 404 res))
       else next err).

(** [req.body] once the body parsers let the request through. *)
Definition req_body (req : Request) : Js.value :=
  match body req with
  | Ok v => v
  | Throw _ => Js.Undefined
  end.

Definition req_filename (req : Request) : string :=
  Js.or_default (req_headers req !! "x-filename") "newsletter.html".

Definition no_content : Js.value :=
  Js.Obj [("error", Js.Str "No HTML content provided")].

Definition processing_failed (err : Error) : Js.value :=
  Js.Obj [("success", Js.Bool false);
          ("error", Js.Str "Failed to process HTML");
          ("message", Js.Str (message err))].

Definition on_processing_error (req : Request) (res : Response)
    (err : Error) : M Response :=
  perform console_error "Processing error:" err ;;
  ret (Res.json express req (processing_failed err)
         (Res.set_status 500 res)).

(** [app.post("/process")]. *)
Definition post_process (req : Request) (res : Response) : M Response :=
  try_catch
    (let htmlContent := req_body req in
     let filename := req_filename req in
     if negb (Js.truthy htmlContent)
     then ret (Res.json express req no_content (Res.set_status 400 res))
     else
       processedHtml <~ processHtml htmlContent ;;
       ret (Res.json express req
              (Js.Obj [("success", Js.Bool true);
                       ("html", Js.Str processedHtml);
                       ("filename", Js.Str filename)])
              res))
    (on_processing_error req res).

(** [app.post("/process-download")]. *)
Definition post_process_download (req : Request) (res : Response)
  : M Response :=
  try_catch
    (let htmlContent := req_body req in
     let filename := req_filename req in
     if negb (Js.truthy htmlContent)
     then ret (Res.json express req no_content (Res.set_status 400 res))
     else
       processedHtml <~ processHtml htmlContent ;;
       ret (Res.send express req processedHtml
              (Res.header "Content-Disposition"
                 ("attachment; filename=" +:+ quote +:+ filename +:+ quote)
                 (Res.header "Content-Type" "text/html; charset=UTF-8"
                    res))))
    (on_processing_error req res).

(** *** Middleware and dispatch *)

(** The CORS middleware; [next] is the rest of the stack. *)
Definition cors (req : Request) (res : Response)
    (next : Response → M Response) : M Response :=
  let res1 := Res.header "Access-Control-Allow-Origin" "*" res in
  let res2 := Res.header "Access-Control-Allow-Methods"
                "GET, POST, PUT, DELETE, OPTIONS" res1 in
  let res3 := Res.header "Access-Control-Allow-Headers"
    "Origin, X-Requested-With, Content-Type, Accept, Authorization, X-Filename"
    res2 in
  if String.eqb (method req) "OPTIONS"
  then ret (Res.sendStatus express req 200 res3)
  else next res3.

(** The error handler registered last. *)
Definition error_handler (req : Request) (res : Response) (err : Error)
  : M Response :=
  perform console_error "" err ;;
  ret (Res.send express req "Internal Server Error"
         (Res.set_status 500 res)).

(** The framework's answer when no route matches: status 404 and its
    error page, which a HEAD does not get. *)
Definition not_found (req : Request) (res : Response) : M Response :=
  ret {| status := 404;
         res_headers := <["Content-Type" := "text/html; charset=utf-8"]>
                          (res_headers res);
         res_body := if String.eqb (method req) "HEAD" then NoBody
                     else Text (not_found_page express req) |}.

(** [app.get] also serves HEAD. *)
Definition is_get (req : Request) : bool :=
  String.eqb (method req) "GET" || String.eqb (method req) "HEAD".
Definition is_post (req : Request) : bool :=
  String.eqb (method req) "POST".

(** The routes, in the order they were registered; the first match
    answers the request. *)
Definition match_route (req : Request) : option Route :=
  if is_get req && route_matches "/" (path req) then Some GetRoot
  else if is_get req && route_matches "/download" (path req)
  then Some GetDownload
  else if is_post req && route_matches "/process" (path req)
  then Some PostProcess
  else if is_post req && route_matches "/process-download" (path req)
  then Some PostProcessDownload
  else None.

Definition router (req : Request) (res : Response) : M Response :=
  match match_route req with
  | Some GetRoot => get_root req res (error_handler req res)
  | Some GetDownload => get_download req res (error_handler req res)
  | Some PostProcess => post_process req res
  | Some PostProcessDownload => post_process_download req res
  | None => not_found req res
  end.

(** The whole stack: body parsers, CORS, routes, error handler.  A request
    whose body the parsers reject skips every ordinary middleware. *)
Definition app (req : Request) : M Response :=
  match body req with
  | Throw err => error_handler req Res.fresh err
  | Ok _ => cors req Res.fresh (router req)
  end.

End Engines.
End Server.

(** ** Stand-in engines and small documents, to run the model on *)

Module Example.

Definition el (tag : string) (attrs : list (string * string)) : Element :=
  mkElement tag (list_to_map attrs).

Definition leaves (n : nat) : list Node :=
  map (λ k, NodeElement k []) (seq 0 n).

Definition doc (els : list Element) : Document :=
  {| tree := leaves (length els); elems := els |}.

(** [<label for="i2">] and [<div id="i2">]. *)
Definition label_doc : Document :=
  doc [el "label" [("for", "i2")]; el "div" [("id", "i2")]].

(** [<div id="i1">] and [<a href="#i1" for="other">]. *)
Definition mixed_ref_doc : Document :=
  doc [el "div" [("id", "i1")];
       el "a" [("href", "#i1"); ("for", "other")]].

(** [<div id="i1">], [<div id="i2">] and [<a href="#i2" for="i1">]. *)
Definition crossed_ref_doc : Document :=
  doc [el "div" [("id", "i1")]; el "div" [("id", "i2")];
       el "a" [("href", "#i2"); ("for", "i1")]].

(** Identifiers that start with i without being generated, and one that
    starts with a capital. *)
Definition words_doc : Document :=
  doc [el "h1" [("id", "intro")]; el "img" [("id", "Image")];
       el "p" [("id", "main")]; el "a" [("href", "#intro")]].

Definition uuids (n : nat) : string :=
  match n with
  | 0 => "3f2b8c1e-58a4-4d0b-9c57-0a1d6e4f7b21"
  | 1 => "a94d07c2-1b6e-4f38-8e25-6c0b9d3e5f10"
  | 2 => "5c7e19d4-02fa-4b6c-a813-9e4d2f6b8c37"
  | _ => "e18b64f0-7d3c-4a59-b2e6-1f8c0a5d9e42"
  end.

Definition no_template : string → Result string :=
  λ _, Throw (mkError "ENOENT: no such file or directory"
                (Some "ENOENT")).

Definition world : World :=
  {| uuid_source := uuids; drawn := 0; files := no_template; log := [] |}.

(** An inliner that has nothing to inline, and rejects what is no text. *)
Definition juice (v : Js.value) (_ : JuiceOptions) : Result string :=
  match v with
  | Js.Str s => Ok s
  | _ => Throw (mkError "html.replace is not a function" None)
  end.

(** A parser that knows one document. *)
Definition load (d : Document) : string → Document := λ _, d.

(** A serialiser that prints the identifiers only. *)
Definition html_of (d : Document) : string :=
  String.concat " "
    (map (λ e, default "" (Cheerio.attr e "id")) (elems d)).

Definition select_raw (_ : string) (_ : list Element)
  : Result (list nat) :=
  Throw (mkError "Attribute selector didn't terminate" None).

Definition route_matches (pattern path : string) : bool :=
  String.eqb pattern path.

(** A framework that knows the one content type in capitals and the
    one validator that matches anything. *)
Definition express : Express :=
  {| set_charset := λ type,
       if String.eqb type "text/html; charset=UTF-8"
       then "text/html; charset=utf-8" else type;
     validators_match := λ headers _,
       match headers !! "if-none-match" with
       | Some v => String.eqb v "*"
       | None => false
       end;
     not_found_page := λ req,
       "<pre>Cannot " +:+ method req +:+ " " +:+ path req +:+ "</pre>" |}.

Definition app (d : Document) : Request → M Response :=
  Server.app juice (load d) html_of select_raw route_matches express.

Definition request (m p : string) (b : Result Js.value) : Request :=
  {| method := m; path := p; req_headers := ∅; body := b |}.

(** Step 2 run on a document in [world]: the document it leaves (the
    input itself if it throws) and the world it leaves. *)
Definition remapped (d : Document) : Document :=
  match Server.remapIds select_raw d world with
  | (Ok d', _) => d'
  | (Throw _, _) => d
  end.

Definition world_after (d : Document) : World :=
  snd (Server.remapIds select_raw d world).

(** The same generator in a world that has a template file and has
    already read it once. *)
Definition world_with_template : World :=
  {| uuid_source := uuids; drawn := 0;
     files := λ _, Ok "<p id=i9></p>";
     log := [ReadFile "template.html"] |}.

Definition options_request : Request :=
  request "OPTIONS" "/process" (Ok Js.Undefined).

Definition empty_post : Request :=
  request "POST" "/process" (Ok (Js.Str "")).

Definition object_post : Request :=
  request "POST" "/process" (Ok (Js.Obj [("a", Js.Num 1)])).

Definition object_post_download : Request :=
  request "POST" "/process-download" (Ok (Js.Obj [("a", Js.Num 1)])).

(** A body that the JSON parser rejected. *)
Definition bad_json_post : Request :=
  request "POST" "/process"
    (Throw (mkError "Unexpected end of JSON input" None)).



(** An empty body sent as [application/json]: the JSON parser leaves the
    empty object. *)
Definition empty_json_post : Request :=
  request "POST" "/process" (Ok (Js.Obj [])).

(** [<div id="i<b>">] and [<a href="#i<b>">]: an identifier with which
    the selector text reads as markup. *)
Definition markup_doc : Document :=
  doc [el "div" [("id", "i<b>")]; el "a" [("href", "#i<b>")]].

(** A document none of whose identifiers starts with i. *)
Definition plain_doc : Document :=
  doc [el "p" [("id", "main")]; el "a" [("href", "#main")]].

(** A download request that names its file. *)
Definition named_download : Request :=
  {| method := "POST"; path := "/process-download";
     req_headers := {["x-filename" := "issue-12.html"]};
     body := Ok (Js.Str "<p id=main></p>") |}.

End Example.

(** * Properties *)

Local Open Scope nat_scope.

(** ** Selections *)

Lemma elem_of_select_from (p : Element → bool) (els : list Element) i k :
  k ∈ Cheerio.select_from i p els ↔
  i ≤ k ∧ ∃ el, els !! (k - i) = Some el ∧ p el = true.
Proof.
  revert i. induction els as [|e rest IH]; intros i; simpl.
  - split; [by intros ?%elem_of_nil | by intros (_ & ? & ? & _)].
  - assert (Hrest : k ∈ Cheerio.select_from (S i) p rest ↔
                    i < k ∧ ∃ el, (e :: rest) !! (k - i) = Some el
                                  ∧ p el = true).
    { rewrite IH. split.
      - intros (Hle & el & Hel & Hp). split; [lia|]. exists el.
        replace (k - i) with (S (k - S i)) by lia. done.
      - intros (Hlt & el & Hel & Hp). split; [lia|]. exists el.
        replace (k - i) with (S (k - S i)) in Hel by lia. done. }
    destruct (p e) eqn:Hpe.
    + rewrite elem_of_cons, Hrest. split.
      * intros [-> | (Hlt & Hex)].
        -- split; [lia|]. exists e. by rewrite Nat.sub_diag.
        -- split; [lia | done].
      * intros (Hle & el & Hel & Hp).
        destruct (decide (k = i)) as [-> | Hne]; [by left | right].
        split; [lia | eauto].
    + rewrite Hrest. split.
      * intros (Hlt & Hex). split; [lia | done].
      * intros (Hle & el & Hel & Hp).
        destruct (decide (k = i)) as [-> | Hne].
        -- rewrite Nat.sub_diag in Hel. simpl in Hel. congruence.
        -- split; [lia | eauto].
Qed.

Lemma elem_of_select (p : Element → bool) (els : list Element) k :
  k ∈ Cheerio.select p els ↔ ∃ el, els !! k = Some el ∧ p el = true.
Proof.
  unfold Cheerio.select. rewrite elem_of_select_from, Nat.sub_0_r.
  split; [by intros [_ ?] | intros ?; split; [lia | done]].
Qed.

Lemma NoDup_select_from (p : Element → bool) (els : list Element) i :
  NoDup (Cheerio.select_from i p els).
Proof.
  revert i. induction els as [|e rest IH]; intros i; simpl.
  - constructor.
  - destruct (p e); [|apply IH]. constructor; [|apply IH].
    rewrite elem_of_select_from. lia.
Qed.

Lemma NoDup_select (p : Element → bool) (els : list Element) :
  NoDup (Cheerio.select p els).
Proof. apply NoDup_select_from. Qed.

(** A selection lists its elements in document order. *)
Lemma select_from_increasing (p : Element → bool) (els : list Element) :
  ∀ i r r' k k',
    Cheerio.select_from i p els !! r' = Some k' →
    Cheerio.select_from i p els !! r = Some k →
    r' < r → k' < k.
Proof.
  induction els as [|e rest IH]; intros i r r' k k'; simpl; [done|].
  destruct (p e); [|apply IH].
  destruct r' as [|r'], r as [|r]; simpl; try lia.
  - intros [= <-] Hr _.
    assert (k ∈ Cheerio.select_from (S i) p rest) as Hin
      by (apply list_elem_of_lookup; eauto).
    apply elem_of_select_from in Hin. lia.
  - intros Hr' Hr Hlt. apply (IH (S i) r r'); [done | done | lia].
Qed.

Lemma select_from_nil (p : Element → bool) (els : list Element) i :
  (∀ el, el ∈ els → p el = false) → Cheerio.select_from i p els = [].
Proof.
  revert i. induction els as [|e rest IH]; intros i Hp; simpl; [done|].
  rewrite (Hp e) by (by left). apply IH. intros el Hel. apply Hp. by right.
Qed.

Lemma select_lt (p : Element → bool) (els : list Element) k :
  k ∈ Cheerio.select p els → k < length els.
Proof.
  rewrite elem_of_select. intros (el & Hel & _). by eapply lookup_lt_Some.
Qed.

Lemma length_each sel f (els : list Element) :
  length (Cheerio.each sel f els) = length els.
Proof. unfold Cheerio.each. apply length_imap. Qed.

Lemma lookup_each sel f (els : list Element) j :
  Cheerio.each sel f els !! j =
  (λ el, if bool_decide (j ∈ sel) then f el else el) <$> els !! j.
Proof. unfold Cheerio.each. apply list_lookup_imap. Qed.

(** Selecting by a predicate and mutating the selection is a map. *)
Lemma each_select (p : Element → bool) f (els : list Element) :
  Cheerio.each (Cheerio.select p els) f els =
  map (λ el, if p el then f el else el) els.
Proof.
  apply list_eq. intros j. rewrite lookup_each, list_lookup_fmap.
  destruct (els !! j) as [el|] eqn:Hel; simpl; [|done]. f_equal.
  destruct (p el) eqn:Hp.
  - rewrite bool_decide_eq_true_2; [done|]. apply elem_of_select. eauto.
  - rewrite bool_decide_eq_false_2; [done|]. rewrite elem_of_select.
    intros (el' & Hel' & Hp'). congruence.
Qed.

(** ** Attributes *)

Lemma attr_set_attr_eq el name v :
  Cheerio.attr (Cheerio.set_attr el name v) name = Some v.
Proof. unfold Cheerio.attr, Cheerio.set_attr. simpl. apply lookup_insert_eq. Qed.

Lemma attr_set_attr_ne el name name' v :
  name ≠ name' →
  Cheerio.attr (Cheerio.set_attr el name v) name' = Cheerio.attr el name'.
Proof.
  intros Hne. unfold Cheerio.attr, Cheerio.set_attr. simpl.
  by apply lookup_insert_ne.
Qed.

Lemma tagName_rewrite_ref newId el :
  tagName (rewrite_ref newId el) = tagName el.
Proof.
  unfold rewrite_ref.
  destruct (Cheerio.has_attr el "href");
    match goal with |- context [Cheerio.has_attr ?e "for"] =>
      destruct (Cheerio.has_attr e "for") end; done.
Qed.

(** The inner loop writes [href] and [for], nothing else. *)
Lemma attr_rewrite_ref newId el name :
  name ≠ "href" → name ≠ "for" →
  Cheerio.attr (rewrite_ref newId el) name = Cheerio.attr el name.
Proof.
  intros Hh Hf. unfold rewrite_ref.
  destruct (Cheerio.has_attr el "href");
    match goal with |- context [Cheerio.has_attr ?e "for"] =>
      destruct (Cheerio.has_attr e "for") end;
    rewrite ?attr_set_attr_ne by done; done.
Qed.

(** ** One iteration of the outer loop *)

(** What one iteration leaves of the element at index [j]: the tag and
    every attribute but [id], [href] and [for] are as before, and [id]
    changed at the element of the iteration only. *)
Lemma remap_step_lookup (els : list Element) k el newId refs j el2 :
  els !! k = Some el →
  Cheerio.each refs (rewrite_ref newId)
    (<[k := Cheerio.set_attr el "id" newId]> els) !! j = Some el2 →
  ∃ el0, els !! j = Some el0 ∧ tagName el2 = tagName el0 ∧
    (∀ name, name ≠ "id" → name ≠ "href" → name ≠ "for" →
       Cheerio.attr el2 name = Cheerio.attr el0 name) ∧
    Cheerio.attr el2 "id" =
      (if decide (j = k) then Some newId else Cheerio.attr el0 "id").
Proof.
  intros Hk. rewrite lookup_each. intros Hj.
  apply fmap_Some in Hj as (el1 & Hel1 & ->).
  assert (Hrw : ∀ e, tagName (if bool_decide (j ∈ refs)
                              then rewrite_ref newId e else e) = tagName e
            ∧ (∀ name, name ≠ "href" → name ≠ "for" →
                 Cheerio.attr (if bool_decide (j ∈ refs)
                               then rewrite_ref newId e else e) name
                 = Cheerio.attr e name)).
  { intros e. destruct (bool_decide (j ∈ refs)); [|done].
    split; [apply tagName_rewrite_ref|]. intros. by apply attr_rewrite_ref. }
  destruct (decide (j = k)) as [-> | Hne].
  - rewrite list_lookup_insert_eq in Hel1 by (by eapply lookup_lt_Some).
    injection Hel1 as <-. exists el. split; [done|].
    destruct (Hrw (Cheerio.set_attr el "id" newId)) as [Ht Ha].
    split; [by rewrite Ht|]. split.
    + intros name H1 H2 H3. rewrite Ha by done.
      apply attr_set_attr_ne. congruence.
    + rewrite Ha by done. apply attr_set_attr_eq.
  - rewrite list_lookup_insert_ne in Hel1 by done.
    exists el1. split; [done|]. destruct (Hrw el1) as [Ht Ha].
    split; [done|]. split; [|by apply Ha].
    intros name H1 H2 H3. by apply Ha.
Qed.

Lemma remap_step_length (els : list Element) k e newId refs :
  length (Cheerio.each refs (rewrite_ref newId) (<[k := e]> els))
  = length els.
Proof. by rewrite length_each, length_insert. Qed.

Lemma remap_step_lookup_Some (els : list Element) k e newId refs j el0 :
  els !! j = Some el0 →
  is_Some (Cheerio.each refs (rewrite_ref newId) (<[k := e]> els) !! j).
Proof.
  intros Hj. apply lookup_lt_is_Some. rewrite remap_step_length.
  by eapply lookup_lt_Some.
Qed.

(** ** The outer loop *)

Section Remap.

Variable select_raw : string → list Element → Result (list nat).

Local Abbreviation query_refs := (Server.query_refs select_raw).
Local Abbreviation remap_each := (Server.remap_each select_raw).
Local Abbreviation remapIds := (Server.remapIds select_raw).

(** The selector engine touches nothing of the world. *)
Lemma query_refs_world oldId els w :
  snd (query_refs oldId els w) = w.
Proof.
  unfold Server.query_refs.
  by destruct (is_html (refs_selector oldId)), (selector_safe oldId).
Qed.

Lemma query_refs_safe oldId els w :
  is_html (refs_selector oldId) = false →
  selector_safe oldId = true →
  query_refs oldId els w = (Ok (Cheerio.select (is_ref oldId) els), w).
Proof. intros Hm H. unfold Server.query_refs. by rewrite Hm, H. Qed.

(** The query throws only where the selector engine is asked about an
    identifier with a quote or a backslash in it. *)
Lemma query_refs_throw oldId els w e w' :
  query_refs oldId els w = (Throw e, w') → selector_safe oldId = false.
Proof.
  unfold Server.query_refs.
  by destruct (is_html (refs_selector oldId)), (selector_safe oldId).
Qed.

(** The equation of one iteration. *)
Lemma remap_each_cons k rest els el w :
  els !! k = Some el →
  remap_each (k :: rest) els w =
  let oldId := default "undefined" (Cheerio.attr el "id") in
  let newId := "id-" +:+ uuid_source w (drawn w) in
  let w1 := {| uuid_source := uuid_source w; drawn := S (drawn w);
               files := files w; log := log w |} in
  let els1 := <[k := Cheerio.set_attr el "id" newId]> els in
  match query_refs oldId els1 w1 with
  | (Ok refs, _) =>
      remap_each rest (Cheerio.each refs (rewrite_ref newId) els1) w1
  | (Throw e, _) => (Throw e, w1)
  end.
Proof.
  intros Hk. simpl. rewrite Hk. unfold bind at 1. unfold uuidv4.
  unfold bind at 1. cbv zeta.
  pose proof (query_refs_world
    (default "undefined" (Cheerio.attr el "id"))
    (<[k := Cheerio.set_attr el "id" ("id-" +:+ uuid_source w (drawn w))]> els)
    {| uuid_source := uuid_source w; drawn := S (drawn w);
       files := files w; log := log w |}) as Hw.
  destruct (query_refs _ _ _) as [[refs|e] w2]; simpl in Hw; by subst.
Qed.

Lemma remap_each_skip k rest els w :
  els !! k = None → remap_each (k :: rest) els w = remap_each rest els w.
Proof. intros Hk. simpl. by rewrite Hk. Qed.

(** The loop leaves the files and the log alone, whatever its outcome. *)
Lemma remap_each_world sel : ∀ els w,
  uuid_source (snd (remap_each sel els w)) = uuid_source w ∧
  files (snd (remap_each sel els w)) = files w ∧
  log (snd (remap_each sel els w)) = log w.
Proof.
  induction sel as [|k rest IH]; intros els w; [done|].
  destruct (els !! k) as [el|] eqn:Hk.
  - rewrite (remap_each_cons _ _ _ _ _ Hk). cbv zeta.
    destruct (query_refs _ _ _) as [[refs|e] w2]; [|done].
    match goal with |- context [remap_each rest ?l ?v] =>
      destruct (IH l v) as (H1 & H2 & H3) end.
    by rewrite H1, H2, H3.
  - rewrite remap_each_skip by done. apply IH.
Qed.

(** What a completed loop did: one draw per selected element, in the
    order of the selection; the identifier of a selected element is
    [id-] followed by its draw, every other identifier is as before; no
    element was added, removed or renamed, and no attribute other than
    [id], [href] and [for] was written. *)
Lemma remap_each_ok sel : ∀ els w els' w',
  NoDup sel → (∀ k, k ∈ sel → k < length els) →
  remap_each sel els w = (Ok els', w') →
  length els' = length els ∧
  drawn w' = drawn w + length sel ∧
  (∀ j el', els' !! j = Some el' →
     ∃ el, els !! j = Some el ∧ tagName el' = tagName el ∧
       (∀ name, name ≠ "id" → name ≠ "href" → name ≠ "for" →
          Cheerio.attr el' name = Cheerio.attr el name) ∧
       (j ∉ sel → Cheerio.attr el' "id" = Cheerio.attr el "id")) ∧
  (∀ r k, sel !! r = Some k →
     ∃ el', els' !! k = Some el' ∧
       Cheerio.attr el' "id"
       = Some ("id-" +:+ uuid_source w (drawn w + r))).
Proof.
  induction sel as [|k rest IH]; intros els w els' w' Hnd Hlt Hrun.
  - injection Hrun as <- <-. split; [done|]. split; [simpl; lia|].
    split; [|by intros r k ?]. intros j el' Hj. exists el'. done.
  - apply NoDup_cons in Hnd as [Hk_rest Hnd].
    destruct (lookup_lt_is_Some_2 els k) as [el Hk].
    { apply Hlt. by left. }
    rewrite (remap_each_cons _ _ _ _ _ Hk) in Hrun. cbv zeta in Hrun.
    destruct (query_refs _ _ _) as [[refs|e] w2]; [|done].
    apply IH in Hrun as (Hlen & Hdrawn & Hframe & Hnew); [|done|].
    2:{ intros k' Hk'. rewrite remap_step_length. apply Hlt. by right. }
    rewrite remap_step_length in Hlen. simpl in Hdrawn, Hnew.
    split; [done|]. split; [simpl; lia|]. split.
    + intros j el' Hj. destruct (Hframe j el' Hj) as (el2 & Hel2 & Ht & Ha & Hid).
      destruct (remap_step_lookup _ _ _ _ _ _ _ Hk Hel2)
        as (el0 & Hel0 & Ht0 & Ha0 & Hid0).
      exists el0. split; [done|]. split; [congruence|]. split.
      * intros name H1 H2 H3. rewrite Ha, Ha0 by done. done.
      * intros Hnot. apply not_elem_of_cons in Hnot as [Hne Hnot].
        rewrite Hid by done. rewrite Hid0. by rewrite decide_False.
    + intros [|r] k' Hr; simpl in Hr.
      * injection Hr as <-.
        destruct (remap_step_lookup_Some els k
                    (Cheerio.set_attr el "id"
                       ("id-" +:+ uuid_source w (drawn w)))
                    ("id-" +:+ uuid_source w (drawn w)) refs k el Hk)
          as [el2 Hel2].
        assert (is_Some (els' !! k)) as [el' Hel'].
        { apply lookup_lt_is_Some. rewrite Hlen. by eapply lookup_lt_Some. }
        exists el'. split; [done|].
        destruct (Hframe k el' Hel') as (el2' & Hel2' & _ & _ & Hid).
        rewrite Hid by done.
        destruct (remap_step_lookup _ _ _ _ _ _ _ Hk Hel2')
          as (el0 & _ & _ & _ & Hid0).
        rewrite Hid0, decide_True by done. by rewrite Nat.add_0_r.
      * destruct (Hnew r k' Hr) as (el' & Hel' & Hid).
        exists el'. split; [done|]. rewrite Hid. do 3 f_equal. lia.
Qed.

(** The loop can only fail in the selector engine, on an identifier that
    carries a quote or a backslash. *)
Lemma remap_each_throw sel : ∀ els w e w',
  NoDup sel →
  remap_each sel els w = (Throw e, w') →
  ∃ k el, k ∈ sel ∧ els !! k = Some el ∧
    selector_safe (default "undefined" (Cheerio.attr el "id")) = false.
Proof.
  induction sel as [|k rest IH]; intros els w e w' Hnd Hrun; [done|].
  apply NoDup_cons in Hnd as [Hk_rest Hnd].
  destruct (els !! k) as [el|] eqn:Hk.
  - rewrite (remap_each_cons _ _ _ _ _ Hk) in Hrun. cbv zeta in Hrun.
    destruct (query_refs _ _ _) as [[refs|e'] w2] eqn:Hquery.
    + apply IH in Hrun as (k' & el2 & Hk' & Hel2 & Hbad); [|done].
      destruct (remap_step_lookup _ _ _ _ _ _ _ Hk Hel2)
        as (el0 & Hel0 & _ & _ & Hid0).
      rewrite decide_False in Hid0 by (intros ->; done).
      exists k', el0. split; [by right|]. split; [done|]. by rewrite <- Hid0.
    + apply query_refs_throw in Hquery.
      exists k, el. split; [by left | done].
  - rewrite remap_each_skip in Hrun by done.
    apply IH in Hrun as (k' & el & Hk' & Hel & Hbad); [|done].
    exists k', el. split; [by right | done].
Qed.

Lemma query_refs_result oldId els :
  ∃ r, ∀ w, query_refs oldId els w = (r, w).
Proof.
  unfold Server.query_refs.
  destruct (is_html (refs_selector oldId)), (selector_safe oldId); eauto.
Qed.

(** The outcome of the loop depends on the world through the values it
    draws, and on nothing else. *)
Lemma remap_each_ext sel : ∀ els w1 w2,
  (∀ r, r < length sel →
     uuid_source w1 (drawn w1 + r) = uuid_source w2 (drawn w2 + r)) →
  fst (remap_each sel els w1) = fst (remap_each sel els w2).
Proof.
  induction sel as [|k rest IH]; intros els w1 w2 Hdraws; [done|].
  destruct (els !! k) as [el|] eqn:Hk.
  - rewrite !(remap_each_cons _ _ _ _ _ Hk). cbv zeta.
    pose proof (Hdraws 0 ltac:(simpl; lia)) as H0.
    rewrite !Nat.add_0_r in H0. rewrite H0.
    match goal with |- context [query_refs ?o ?l _] =>
      destruct (query_refs_result o l) as [r Hr] end.
    rewrite !Hr. destruct r as [refs|e]; [|done].
    apply IH. intros r Hlt. simpl.
    specialize (Hdraws (S r) ltac:(simpl; lia)).
    by rewrite <- !Nat.add_succ_comm in Hdraws.
  - rewrite !remap_each_skip by done. apply IH.
    intros r Hlt. apply Hdraws. simpl. lia.
Qed.

(** *** The whole of step 2 *)

Lemma remapIds_unfold d w :
  remapIds d w =
  match remap_each (Cheerio.select is_auto_id (elems d)) (elems d) w with
  | (Ok els, w') => (Ok {| tree := tree d; elems := els |}, w')
  | (Throw e, w') => (Throw e, w')
  end.
Proof. reflexivity. Qed.

Lemma remapIds_ok d w d' w' :
  remapIds d w = (Ok d', w') →
  tree d' = tree d ∧
  remap_each (Cheerio.select is_auto_id (elems d)) (elems d) w
  = (Ok (elems d'), w').
Proof.
  rewrite remapIds_unfold.
  destruct (remap_each _ _ _) as [[els|e] w2]; [|done].
  by intros [= <- <-].
Qed.

End Remap.

(** ** The identifier pattern *)

Lemma is_auto_id_iff el :
  is_auto_id el = true ↔
  ∃ rest, Cheerio.attr el "id" = Some (String "i"%char rest).
Proof.
  unfold is_auto_id, Cheerio.attr_starts_with.
  destruct (Cheerio.attr el "id") as [[|c rest]|]; cbn [String.prefix].
  - split; [done | by intros [? ?]].
  - destruct (Ascii.ascii_dec "i" c) as [<- | Hne].
    + split; [eauto | by destruct rest].
    + split; [done | intros [? [= -> _]]; done].
  - split; [done | by intros [? ?]].
Qed.

Lemma is_auto_id_new el u :
  Cheerio.attr el "id" = Some ("id-" +:+ u) → is_auto_id el = true.
Proof. intros H. apply is_auto_id_iff. rewrite H. by eexists. Qed.

Lemma new_id_inj u1 u2 : "id-" +:+ u1 = "id-" +:+ u2 → u1 = u2.
Proof. apply (inj (String.app "id-")). Qed.

Section Identifiers.

Variable select_raw : string → list Element → Result (list nat).

Local Abbreviation remap_each := (Server.remap_each select_raw).
Local Abbreviation remapIds := (Server.remapIds select_raw).



End Identifiers.

(** ** Sending an answer *)

Lemma is_get_false req :
  Server.is_get req = false →
  String.eqb (method req) "GET" = false ∧
  String.eqb (method req) "HEAD" = false.
Proof. unfold Server.is_get. by intros [? ?]%orb_false_iff. Qed.

(** Away from GET and HEAD, and from the statuses 204 and 304, an answer
    goes out as it was prepared. *)
Lemma finish_plain express req payload res :
  Server.is_get req = false →
  Nat.eqb (status res) 204 = false → Nat.eqb (status res) 304 = false →
  Res.finish express req payload res
  = {| status := status res; res_headers := res_headers res;
       res_body := payload |}.
Proof.
  intros [Hget Hhead]%is_get_false H204 H304.
  unfold Res.finish, Res.is_fresh. rewrite Hget, Hhead. simpl.
  by rewrite H204, H304.
Qed.

(** An answer of status 400 or more is sent as it is, less the body when
    the request is a HEAD. *)
Lemma finish_error express req payload res :
  400 ≤ status res →
  Res.finish express req payload res
  = {| status := status res; res_headers := res_headers res;
       res_body := if String.eqb (method req) "HEAD" then NoBody
                   else payload |}.
Proof.
  intros Hst.
  assert (Nat.ltb (status res) 300 = false) as H300 by (apply Nat.ltb_ge; lia).
  assert (Nat.eqb (status res) 304 = false) as H304 by (apply Nat.eqb_neq; lia).
  assert (Nat.eqb (status res) 204 = false) as H204 by (apply Nat.eqb_neq; lia).
  assert (Res.is_fresh express req payload res = false) as Hstale.
  { unfold Res.is_fresh. rewrite H300, H304, andb_false_r. simpl.
    by rewrite andb_false_r. }
  unfold Res.finish. by rewrite Hstale, H204, H304.
Qed.

(** An answer of status 200 to a GET or a HEAD becomes a 304 when the
    validators of the request match. *)
Lemma finish_get express req payload res :
  Server.is_get req = true → status res = 200 →
  Res.finish express req payload res
  = if validators_match express (req_headers req) payload
    then {| status := 304;
            res_headers := delete "Content-Type" (res_headers res);
            res_body := NoBody |}
    else {| status := 200; res_headers := res_headers res;
            res_body := if String.eqb (method req) "HEAD" then NoBody
                        else payload |}.
Proof.
  intros Hget Hst. unfold Res.finish, Res.is_fresh.
  unfold Server.is_get in Hget. rewrite Hget, Hst. simpl.
  by destruct (validators_match express _ _).
Qed.

Lemma keeps_headers_finish express req payload res res' :
  keeps_headers res res' →
  keeps_headers res (Res.finish express req payload res').
Proof.
  intros H name H1 H2. unfold Res.finish. simpl.
  destruct (_ || _); [rewrite lookup_delete_ne by done|]; by apply H.
Qed.

Lemma keeps_headers_header name value res res' :
  name = "Content-Type" ∨ name = "Content-Disposition" →
  keeps_headers res res' →
  keeps_headers res (Res.header name value res').
Proof.
  intros Hname H name' H1 H2. simpl.
  rewrite lookup_insert_ne by (destruct Hname; congruence). by apply H.
Qed.

Lemma keeps_headers_send express req text res res' :
  keeps_headers res res' →
  keeps_headers res (Res.send express req text res').
Proof.
  intros H. unfold Res.send.
  apply keeps_headers_finish, keeps_headers_header; [by left | done].
Qed.

Lemma keeps_headers_json express req v res res' :
  keeps_headers res res' →
  keeps_headers res (Res.json express req v res').
Proof.
  intros H. unfold Res.json.
  apply keeps_headers_finish, keeps_headers_header; [by left | done].
Qed.

Lemma keeps_headers_start res : keeps_headers res res.
Proof. by intros name _ _. Qed.

Lemma keeps_headers_set_status code res res' :
  keeps_headers res res' → keeps_headers res (Res.set_status code res').
Proof. done. Qed.

(** Status and body of what [res.send] and [res.json] send. *)
Lemma status_finish express req payload res :
  status (Res.finish express req payload res)
  = if Res.is_fresh express req payload res then 304 else status res.
Proof. done. Qed.

Lemma status_send express req text res :
  status (Res.send express req text res)
  = if Res.is_fresh express req (Text text) res then 304 else status res.
Proof. done. Qed.

Lemma status_json express req v res :
  status (Res.json express req v res)
  = if Res.is_fresh express req (Json v) res then 304 else status res.
Proof. done. Qed.

Lemma status_send_error express req text res :
  400 ≤ status res → status (Res.send express req text res) = status res.
Proof. intros H. unfold Res.send. by rewrite finish_error. Qed.

Lemma status_json_error express req v res :
  400 ≤ status res → status (Res.json express req v res) = status res.
Proof. intros H. unfold Res.json. by rewrite finish_error. Qed.

Lemma status_send_ok express req text res :
  status res = 200 →
  status (Res.send express req text res) = 200 ∨
  status (Res.send express req text res) = 304.
Proof.
  intros H. rewrite status_send, H. destruct (Res.is_fresh _ _ _ _); auto.
Qed.

Lemma status_json_ok express req v res :
  status res = 200 →
  status (Res.json express req v res) = 200 ∨
  status (Res.json express req v res) = 304.
Proof.
  intros H. rewrite status_json, H. destruct (Res.is_fresh _ _ _ _); auto.
Qed.

Lemma send_plain express req text res :
  Server.is_get req = false →
  Nat.eqb (status res) 204 = false → Nat.eqb (status res) 304 = false →
  status (Res.send express req text res) = status res ∧
  res_body (Res.send express req text res) = Text text.
Proof.
  intros Hget H204 H304. unfold Res.send.
  by rewrite finish_plain.
Qed.

Lemma json_plain express req v res :
  Server.is_get req = false →
  Nat.eqb (status res) 204 = false → Nat.eqb (status res) 304 = false →
  status (Res.json express req v res) = status res ∧
  res_body (Res.json express req v res) = Json v.
Proof.
  intros Hget H204 H304. unfold Res.json.
  by rewrite finish_plain.
Qed.

(** ** The transform as a whole, and the HTTP adapters *)

Section Http.

Variable juice : Js.value → JuiceOptions → Result string.
Variable load : string → Document.
Variable html_of : Document → string.
Variable select_raw : string → list Element → Result (list nat).
Variable route_matches : string → string → bool.
Variable express : Express.

Local Abbreviation remapIds := (Server.remapIds select_raw).
Local Abbreviation processHtml :=
  (Server.processHtml juice load html_of select_raw).
Local Abbreviation post_process :=
  (Server.post_process juice load html_of select_raw express).
Local Abbreviation post_process_download :=
  (Server.post_process_download juice load html_of select_raw express).
Local Abbreviation get_root :=
  (Server.get_root juice load html_of select_raw express).
Local Abbreviation get_download :=
  (Server.get_download juice load html_of select_raw express).
Local Abbreviation match_route := (Server.match_route route_matches).
Local Abbreviation router :=
  (Server.router juice load html_of select_raw route_matches express).
Local Abbreviation cors := (Server.cors express).
Local Abbreviation error_handler := (Server.error_handler express).
Local Abbreviation app :=
  (Server.app juice load html_of select_raw route_matches express).

Lemma processHtml_falsy v w :
  Js.truthy v = false →
  processHtml v w = (Throw (mkError "HTML content is required" None), w).
Proof. intros H. unfold Server.processHtml. by rewrite H. Qed.

Lemma processHtml_truthy v w :
  Js.truthy v = true →
  processHtml v w =
  let w1 := snd (emit (CallJuice v) w) in
  match juice v Server.juice_options with
  | Throw e => (Throw e, w1)
  | Ok html =>
      match remapIds (load html) (snd (emit (CallLoad html) w1)) with
      | (Ok d, w3) => (Ok (html_of d), w3)
      | (Throw e, w3) => (Throw e, w3)
      end
  end.
Proof.
  intros H. unfold Server.processHtml. rewrite H. simpl.
  unfold bind, emit, lift. simpl.
  destruct (juice v Server.juice_options) as [html|e]; [|done].
  by destruct (remapIds _ _) as [[d|e] w3].
Qed.

(** The log only grows, and by calls into the two engines only; the
    files are not looked at. *)
Lemma processHtml_effects v w :
  files (snd (processHtml v w)) = files w ∧
  uuid_source (snd (processHtml v w)) = uuid_source w ∧
  ∃ l, log (snd (processHtml v w)) = (log w ++ l)%list ∧
       (Js.truthy v = true → ∃ l', l = CallJuice v :: l') ∧
       ∀ e, e ∈ l → (∃ x, e = CallJuice x) ∨ (∃ s, e = CallLoad s).
Proof.
  destruct (Js.truthy v) eqn:Hv.
  - rewrite processHtml_truthy by done. cbv zeta.
    destruct (juice v Server.juice_options) as [html|e].
    + rewrite remapIds_unfold.
      match goal with |- context [Server.remap_each ?f ?s ?l ?x] =>
        destruct (remap_each_world f s l x) as (Hu & Hf & Hl);
        destruct (Server.remap_each f s l x) as [[els|e] w3] end;
        simpl in *; rewrite Hu, Hf, Hl; (split; [done|]; split; [done|]);
        exists [CallJuice v; CallLoad html];
        (split; [by rewrite <- app_assoc|]); (split; [eauto|]);
        intros e0 [->|[->|[]%elem_of_nil]%elem_of_cons]%elem_of_cons; eauto.
    + simpl. split; [done|]. split; [done|]. exists [CallJuice v].
      split; [done|]. split; [eauto|].
      intros e0 [->|[]%elem_of_nil]%elem_of_cons; eauto.
  - rewrite processHtml_falsy by done. simpl. split; [done|]. split; [done|].
    exists []. split; [by rewrite app_nil_r|]. split; [done|].
    by intros e0 ?%elem_of_nil.
Qed.

(** C8: [processHtml] is a function of its input and of the values it
    draws from the generator.  Two runs on the same input in worlds
    whose generators hand out the same sequence of values end in the
    same outcome, the same text or the same error, whatever else
    differs between the worlds; and the only things a run does to the
    world besides drawing are the calls into the inliner and the parser:
    it reads no file and the files are as they were. *)
Theorem processHtml_is_deterministic (v : Js.value) (w1 w2 : World) :
  (∀ r, uuid_source w1 (drawn w1 + r) = uuid_source w2 (drawn w2 + r)) →
  fst (processHtml v w1) = fst (processHtml v w2) ∧
  files (snd (processHtml v w1)) = files w1 ∧
  ∃ l, log (snd (processHtml v w1)) = (log w1 ++ l)%list ∧
       (∀ p, ReadFile p ∉ l) ∧
       ∀ e, e ∈ l → (∃ x, e = CallJuice x) ∨ (∃ s, e = CallLoad s).
Proof.
  intros Hdraws. split.
  - destruct (Js.truthy v) eqn:Hv.
    + rewrite !processHtml_truthy by done. cbv zeta.
      destruct (juice v Server.juice_options) as [html|e]; [|done].
      rewrite !remapIds_unfold.
      match goal with
      | |- context [Server.remap_each ?f ?s ?l (snd (emit ?c (snd (emit ?j w1))))] =>
          pose proof (remap_each_ext f s l
                        (snd (emit c (snd (emit j w1))))
                        (snd (emit c (snd (emit j w2))))) as Hext
      end.
      specialize (Hext (λ r _, Hdraws r)).
      destruct (Server.remap_each _ _ _ (snd (emit _ (snd (emit _ w1)))))
        as [[els1|e1] w1'];
        destruct (Server.remap_each _ _ _ (snd (emit _ (snd (emit _ w2)))))
        as [[els2|e2] w2'];
        simpl in Hext; by simplify_eq.
    + by rewrite !processHtml_falsy.
  - destruct (processHtml_effects v w1) as (Hf & _ & l & Hl & _ & Hkinds).
    split; [done|]. exists l. split; [done|]. split; [|done].
    intros p Hp. by destruct (Hkinds _ Hp) as [[? ?] | [? ?]].
Qed.

(** *** The two POST routes *)

Lemma post_process_outcome req res w :
  post_process req res w =
  if Js.truthy (Server.req_body req)
  then match processHtml (Server.req_body req) w with
       | (Ok html, w1) =>
           (Ok (Res.json express req
                  (Js.Obj [("success", Js.Bool true);
                           ("html", Js.Str html);
                           ("filename", Js.Str (Server.req_filename req))])
                  res), w1)
       | (Throw err, w1) =>
           (Ok (Res.json express req (Server.processing_failed err)
                  (Res.set_status 500 res)),
            snd (console_error "Processing error:" err w1))
       end
  else (Ok (Res.json express req Server.no_content
              (Res.set_status 400 res)), w).
Proof.
  unfold Server.post_process, try_catch.
  destruct (Js.truthy (Server.req_body req)); [|done]. simpl.
  unfold bind at 1.
  by destruct (processHtml _ _) as [[html|err] w1].
Qed.

Lemma post_process_download_outcome req res w :
  post_process_download req res w =
  if Js.truthy (Server.req_body req)
  then match processHtml (Server.req_body req) w with
       | (Ok html, w1) =>
           (Ok (Res.send express req html
                  (Res.header "Content-Disposition"
                     ("attachment; filename=" +:+ quote +:+
                        Server.req_filename req +:+ quote)
                     (Res.header "Content-Type" "text/html; charset=UTF-8"
                        res))), w1)
       | (Throw err, w1) =>
           (Ok (Res.json express req (Server.processing_failed err)
                  (Res.set_status 500 res)),
            snd (console_error "Processing error:" err w1))
       end
  else (Ok (Res.json express req Server.no_content
              (Res.set_status 400 res)), w).
Proof.
  unfold Server.post_process_download, try_catch.
  destruct (Js.truthy (Server.req_body req)); [|done]. simpl.
  unfold bind at 1.
  by destruct (processHtml _ _) as [[html|err] w1].
Qed.

Lemma app_parsed req v w :
  body req = Ok v → app req w = cors req Res.fresh (router req) w.
Proof. intros H. unfold Server.app. by rewrite H. Qed.

Lemma req_body_parsed req v : body req = Ok v → Server.req_body req = v.
Proof. intros H. unfold Server.req_body. by rewrite H. Qed.

(** A request for a route other than OPTIONS goes through to the router
    (the routes match GET, HEAD and POST only). *)
Lemma match_route_not_options req route :
  match_route req = Some route → String.eqb (method req) "OPTIONS" = false.
Proof.
  unfold Server.match_route, Server.is_get, Server.is_post.
  destruct (String.eqb (method req) "OPTIONS") eqn:Hm; [|done].
  apply String.eqb_eq in Hm. rewrite Hm. simpl. done.
Qed.

(** The POST routes answer POST requests only. *)
Lemma match_route_post req route :
  match_route req = Some route →
  route = PostProcess ∨ route = PostProcessDownload →
  Server.is_get req = false.
Proof.
  unfold Server.match_route, Server.is_post, Server.is_get.
  destruct (String.eqb (method req) "POST") eqn:Hm.
  - apply String.eqb_eq in Hm. by rewrite Hm.
  - simpl. intros Hroute [-> | ->];
      repeat (destruct (_ && _) in Hroute; [done|]); done.
Qed.

Lemma app_routed req v route w :
  body req = Ok v → match_route req = Some route →
  app req w =
  router req
    (Res.header "Access-Control-Allow-Headers"
       "Origin, X-Requested-With, Content-Type, Accept, Authorization, X-Filename"
       (Res.header "Access-Control-Allow-Methods"
          "GET, POST, PUT, DELETE, OPTIONS"
          (Res.header "Access-Control-Allow-Origin" "*" Res.fresh))) w.
Proof.
  intros Hb Hr. rewrite (app_parsed _ _ _ Hb). unfold Server.cors.
  by rewrite (match_route_not_options _ _ Hr).
Qed.

(** *** Headers *)

#[local] Hint Resolve keeps_headers_start keeps_headers_set_status
  keeps_headers_send keeps_headers_json : core.
#[local] Hint Extern 1 (keeps_headers _ (Res.header _ _ _)) =>
  apply keeps_headers_header; [first [by left | by right]|] : core.
#[local] Hint Extern 1 (keeps_headers _ (Res.type_html _)) =>
  apply keeps_headers_header; [by left|] : core.

Lemma get_root_keeps_headers req res w :
  ∃ resp w', get_root req res (error_handler req res) w = (Ok resp, w') ∧
             keeps_headers res resp.
Proof.
  unfold Server.get_root, try_catch, bind at 1, readFile, bind at 1.
  simpl. destruct (files _ _) as [content|err]; simpl.
  - unfold bind at 1. destruct (processHtml _ _) as [[html|err] w1].
    + eexists _, _. split; [done|]. auto.
    + destruct (Server.is_enoent err); eexists _, _;
        (split; [done|]); auto.
  - destruct (Server.is_enoent err); eexists _, _;
      (split; [done|]); auto.
Qed.

Lemma get_download_keeps_headers req res w :
  ∃ resp w',
    get_download req res (error_handler req res) w = (Ok resp, w') ∧
    keeps_headers res resp.
Proof.
  unfold Server.get_download, try_catch, bind at 1, readFile, bind at 1.
  simpl. destruct (files _ _) as [content|err]; simpl.
  - unfold bind at 1. destruct (processHtml _ _) as [[html|err] w1].
    + eexists _, _. split; [done|]. auto.
    + destruct (Server.is_enoent err); eexists _, _;
        (split; [done|]); auto.
  - destruct (Server.is_enoent err); eexists _, _;
      (split; [done|]); auto.
Qed.

Lemma router_keeps_headers req res w :
  ∃ resp w', router req res w = (Ok resp, w') ∧ keeps_headers res resp.
Proof.
  unfold Server.router. destruct (match_route req) as [[| | |]|].
  - apply get_root_keeps_headers.
  - apply get_download_keeps_headers.
  - rewrite post_process_outcome.
    destruct (Js.truthy _); [destruct (processHtml _ _) as [[?|?] ?]|];
      eexists _, _; (split; [done|]); auto.
  - rewrite post_process_download_outcome.
    destruct (Js.truthy _); [destruct (processHtml _ _) as [[?|?] ?]|];
      eexists _, _; (split; [done|]); auto.
  - eexists _, _. split; [done|].
    intros name H1 H2. simpl. by rewrite lookup_insert_ne.
Qed.

(** *** What the POST routes answer *)

Local Abbreviation cors_res :=
  (Res.header "Access-Control-Allow-Headers"
     "Origin, X-Requested-With, Content-Type, Accept, Authorization, X-Filename"
     (Res.header "Access-Control-Allow-Methods"
        "GET, POST, PUT, DELETE, OPTIONS"
        (Res.header "Access-Control-Allow-Origin" "*" Res.fresh))).

(** A request with a truthy body to either POST route ends in the
    success answer built from the whole output of [processHtml], or in
    the failure answer built from the error it threw. *)
Lemma post_routes_outcome req v route w :
  match_route req = Some route →
  route = PostProcess ∨ route = PostProcessDownload →
  body req = Ok v → Js.truthy v = true →
  app req w =
  match processHtml v w with
  | (Ok html, w1) =>
      (Ok (match route with
           | PostProcess =>
               Res.json express req
                 (Js.Obj [("success", Js.Bool true);
                          ("html", Js.Str html);
                          ("filename", Js.Str (Server.req_filename req))])
                 cors_res
           | _ =>
               Res.send express req html
                 (Res.header "Content-Disposition"
                    ("attachment; filename=" +:+ quote +:+
                       Server.req_filename req +:+ quote)
                    (Res.header "Content-Type" "text/html; charset=UTF-8"
                       cors_res))
           end), w1)
  | (Throw err, w1) =>
      (Ok (Res.json express req (Server.processing_failed err)
             (Res.set_status 500 cors_res)),
       snd (console_error "Processing error:" err w1))
  end.
Proof.
  intros Hroute Hpost Hbody Hv.
  rewrite (app_routed _ _ _ _ Hbody Hroute). unfold Server.router.
  rewrite Hroute.
  destruct Hpost as [-> | ->];
    [rewrite post_process_outcome | rewrite post_process_download_outcome];
    rewrite (req_body_parsed _ _ Hbody), Hv;
    by destruct (processHtml v w) as [[html|err] w1].
Qed.

(** C4: a request to POST /process whose body is the empty text, [null]
    or missing is answered with status 400 and the JSON body
    [{error: "No HTML content provided"}], without any call into the
    engines; [processHtml] itself, given such an input, throws before it
    calls the inliner or the parser.  With any other text as body (and
    with any truthy body) the inliner is called on it. *)
Theorem empty_body_is_rejected (req : Request) (v : Js.value) (w : World) :
  match_route req = Some PostProcess → body req = Ok v →
  (v = Js.Str "" ∨ v = Js.Null ∨ v = Js.Undefined →
     (∃ resp, app req w = (Ok resp, w) ∧ status resp = 400 ∧
        res_body resp
        = Json (Js.Obj [("error", Js.Str "No HTML content provided")])) ∧
     processHtml v w
     = (Throw (mkError "HTML content is required" None), w)) ∧
  (Js.truthy v = true →
     ∃ l, log (snd (app req w)) = (log w ++ CallJuice v :: l)%list) ∧
  (∀ s, v = Js.Str s → s ≠ "" → Js.truthy v = true).
Proof.
  intros Hroute Hbody. split; [|split].
  - intros Hempty.
    assert (Js.truthy v = false) as Hv by (by destruct Hempty as [->|[->| ->]]).
    split; [|by apply processHtml_falsy].
    rewrite (app_routed _ _ _ _ Hbody Hroute). unfold Server.router.
    rewrite Hroute, post_process_outcome, (req_body_parsed _ _ Hbody), Hv.
    eexists. split; [reflexivity|].
    by apply json_plain;
      [apply (match_route_post _ _ Hroute (or_introl eq_refl))|..].
  - intros Hv.
    rewrite (post_routes_outcome _ _ _ _ Hroute (or_introl eq_refl) Hbody Hv).
    destruct (processHtml_effects v w) as (_ & _ & l & Hl & Hfirst & _).
    destruct (Hfirst Hv) as [l' ->].
    destruct (processHtml v w) as [[html|err] w1]; simpl in *.
    + eauto.
    + exists (l' ++ [ConsoleError "Processing error:" err])%list.
      by rewrite Hl, <- app_assoc.
  - intros s -> Hs. simpl. destruct (String.eqb_spec s ""); done.
Qed.

(** C5: when [processHtml] throws on a request to POST /process or POST
    /process-download, the answer is status 500 with the JSON body
    [{success: false, error: "Failed to process HTML", message}] where
    [message] is the message of the error thrown; when it returns, the
    answer is status 200 and carries the text it returned, whole.  The
    answer is one or the other: the failure body has no document in it. *)
Theorem processing_error_is_500
    (req : Request) (v : Js.value) (route : Route) (w : World) :
  match_route req = Some route →
  route = PostProcess ∨ route = PostProcessDownload →
  body req = Ok v → Js.truthy v = true →
  ∃ resp w', app req w = (Ok resp, w') ∧
    match fst (processHtml v w) with
    | Throw err =>
        status resp = 500 ∧
        res_body resp
        = Json (Js.Obj [("success", Js.Bool false);
                        ("error", Js.Str "Failed to process HTML");
                        ("message", Js.Str (message err))])
    | Ok html =>
        status resp = 200 ∧
        res_body resp
        = match route with
          | PostProcess =>
              Json (Js.Obj [("success", Js.Bool true);
                            ("html", Js.Str html);
                            ("filename", Js.Str (Server.req_filename req))])
          | _ => Text html
          end
    end.
Proof.
  intros Hroute Hpost Hbody Hv.
  pose proof (match_route_post _ _ Hroute Hpost) as Hmethod.
  rewrite (post_routes_outcome _ _ _ _ Hroute Hpost Hbody Hv).
  destruct (processHtml v w) as [[html|err] w1]; simpl;
    eexists _, _; (split; [reflexivity|]).
  - destruct Hpost as [-> | ->];
      [by apply json_plain | by apply send_plain].
  - by apply json_plain.
Qed.

(** C10: a request to either POST route whose parsed body is truthy and
    is not a text, such as the object [{a: 1}], passes the emptiness
    check: the body is handed to the inliner, the answer is never the
    400 of a missing body, and if the pipeline throws the answer is the
    500 failure body. *)
Theorem truthy_body_is_never_rejected
    (req : Request) (v : Js.value) (route : Route) (w : World) :
  match_route req = Some route →
  route = PostProcess ∨ route = PostProcessDownload →
  body req = Ok v → Js.truthy v = true → (∀ s, v ≠ Js.Str s) →
  ∃ resp w', app req w = (Ok resp, w') ∧ status resp ≠ 400 ∧
    (∃ l, log w' = (log w ++ CallJuice v :: l)%list) ∧
    ∀ err, fst (processHtml v w) = Throw err →
           status resp = 500 ∧
           res_body resp
           = Json (Js.Obj [("success", Js.Bool false);
                           ("error", Js.Str "Failed to process HTML");
                           ("message", Js.Str (message err))]).
Proof.
  intros Hroute Hpost Hbody Hv _.
  pose proof (match_route_post _ _ Hroute Hpost) as Hmethod.
  rewrite (post_routes_outcome _ _ _ _ Hroute Hpost Hbody Hv).
  destruct (processHtml_effects v w) as (_ & _ & l & Hl & Hfirst & _).
  destruct (Hfirst Hv) as [l' ->].
  destruct (processHtml v w) as [[html|err] w1]; simpl in *;
    eexists _, _; (split; [reflexivity|]).
  - split; [|split; [eauto | done]].
    destruct Hpost as [-> | ->].
    + destruct (json_plain express req
                  (Js.Obj [("success", Js.Bool true); ("html", Js.Str html);
                           ("filename", Js.Str (Server.req_filename req))])
                  cors_res Hmethod eq_refl eq_refl) as [-> _]. done.
    + match goal with |- status (Res.send _ _ _ ?r) ≠ _ =>
        destruct (send_plain express req html r Hmethod eq_refl eq_refl)
          as [-> _] end. done.
  - destruct (json_plain express req (Server.processing_failed err)
                (Res.set_status 500 cors_res) Hmethod eq_refl eq_refl)
      as [Hstatus Hjson].
    split; [by rewrite Hstatus|]. split.
    + exists (l' ++ [ConsoleError "Processing error:" err])%list.
      by rewrite Hl, <- app_assoc.
    + intros ? [= <-]. by rewrite Hstatus, Hjson.
Qed.

(** *** CORS *)

(** C7, as the code has it: every request that the body parsers let
    through is answered with [Access-Control-Allow-Origin: *], the
    allowed methods GET, POST, PUT, DELETE, OPTIONS and the allowed
    headers, [X-Filename] among them; a request with method OPTIONS is
    answered by the middleware itself, with status 200 and the status
    message OK as body, whatever the rest of the stack is, so that no
    route handler runs. *)
Theorem cors_on_parsed_requests (req : Request) (v : Js.value) (w : World) :
  body req = Ok v →
  (∃ resp w', app req w = (Ok resp, w') ∧
     res_headers resp !! "Access-Control-Allow-Origin" = Some "*" ∧
     res_headers resp !! "Access-Control-Allow-Methods"
     = Some "GET, POST, PUT, DELETE, OPTIONS" ∧
     res_headers resp !! "Access-Control-Allow-Headers"
     = Some "Origin, X-Requested-With, Content-Type, Accept, Authorization, X-Filename") ∧
  (method req = "OPTIONS" →
     (∀ res next, ∃ resp,
        Server.cors express req res next w = (Ok resp, w) ∧
        status resp = 200 ∧ res_body resp = Text "OK") ∧
     ∃ resp, app req w = (Ok resp, w) ∧
             status resp = 200 ∧ res_body resp = Text "OK").
Proof.
  intros Hbody. split.
  - rewrite (app_parsed _ _ _ Hbody). unfold Server.cors.
    destruct (String.eqb (method req) "OPTIONS").
    + eexists _, _. split; [done|].
      assert (keeps_headers cors_res
                (Res.sendStatus express req 200 cors_res)) as Hkeep.
      { unfold Res.sendStatus.
        apply keeps_headers_send, keeps_headers_header; [by left | done]. }
      rewrite !Hkeep by done. done.
    + destruct (router_keeps_headers req cors_res w)
        as (resp & w' & Hrun & Hkeep).
      exists resp, w'. split; [done|].
      rewrite !Hkeep by done. done.
  - intros Hm.
    assert (Hsent : ∀ res,
              status (Res.sendStatus express req 200 res) = 200 ∧
              res_body (Res.sendStatus express req 200 res) = Text "OK").
    { intros res. unfold Res.sendStatus.
      apply send_plain; [|done..]. unfold Server.is_get. by rewrite Hm. }
    split.
    + intros res next. unfold Server.cors. rewrite Hm. simpl.
      eexists. split; [reflexivity|]. apply Hsent.
    + rewrite (app_parsed _ _ _ Hbody). unfold Server.cors.
      rewrite Hm. simpl. eexists. split; [reflexivity|]. apply Hsent.
Qed.

End Http.

(** ** The reference rewriting, run *)

(** The scenario of a label and its target: both change to the same new
    identifier. *)
Example label_and_target_change_together select_raw w :
  match Server.remapIds select_raw Example.label_doc w with
  | (Ok d', _) =>
      (elems d' !! 0) ≫= (λ e, Cheerio.attr e "for")
      = Some ("id-" +:+ uuid_source w (drawn w)) ∧
      (elems d' !! 1) ≫= (λ e, Cheerio.attr e "id")
      = Some ("id-" +:+ uuid_source w (drawn w))
  | (Throw _, _) => False
  end.
Proof. vm_compute. done. Qed.

(** Ordinary words that begin with i are remapped, [Image] and [main] are
    not, and the link to [#intro] follows. *)
Example words_are_remapped_too select_raw w :
  match Server.remapIds select_raw Example.words_doc w with
  | (Ok d', _) =>
      (λ e, Cheerio.attr e "id") <$> elems d'
      = [Some ("id-" +:+ uuid_source w (drawn w)); Some "Image";
         Some "main"; None] ∧
      (elems d' !! 3) ≫= (λ e, Cheerio.attr e "href")
      = Some ("#id-" +:+ uuid_source w (drawn w))
  | (Throw _, _) => False
  end.
Proof. vm_compute. done. Qed.

(** C1, where the code departs from it: in [<div id="i1">], [<div id="i2">]
    and [<a href="#i2" for="i1">] the link refers to the second element.
    The iteration for [i1] selects the link through its [for] attribute
    and rewrites its [href] as well, so the link ends up pointing at the
    new identifier of the first element, made from the first draw, while
    the element it referred to carries the one made from the second. *)
Theorem crossed_reference_follows_the_wrong_id
    (select_raw : string → list Element → Result (list nat)) (w : World) :
  (elems Example.crossed_ref_doc !! 1) ≫= (λ e, Cheerio.attr e "id")
  = Some "i2" ∧
  (elems Example.crossed_ref_doc !! 2) ≫= (λ e, Cheerio.attr e "href")
  = Some "#i2" ∧
  match Server.remapIds select_raw Example.crossed_ref_doc w with
  | (Ok d', _) =>
      (elems d' !! 1) ≫= (λ e, Cheerio.attr e "id")
      = Some ("id-" +:+ uuid_source w (S (drawn w))) ∧
      (elems d' !! 2) ≫= (λ e, Cheerio.attr e "href")
      = Some ("#id-" +:+ uuid_source w (drawn w))
  | (Throw _, _) => False
  end.
Proof. vm_compute. done. Qed.

(** C2, where the code departs from it: in [<div id="i1">] and
    [<a href="#i1" for="other">] the [for] attribute refers to an
    identifier that does not match the pattern, and the loop overwrites it
    with the new identifier. *)
Theorem for_beside_matching_href_is_overwritten
    (select_raw : string → list Element → Result (list nat)) (w : World) :
  (elems Example.mixed_ref_doc !! 1) ≫= (λ e, Cheerio.attr e "for")
  = Some "other" ∧
  match Server.remapIds select_raw Example.mixed_ref_doc w with
  | (Ok d', _) =>
      (elems d' !! 1) ≫= (λ e, Cheerio.attr e "for")
      = Some ("id-" +:+ uuid_source w (drawn w))
  | (Throw _, _) => False
  end.
Proof. vm_compute. done. Qed.

(** X13: an identifier that makes the selector read as markup loses its
    references.  In [<div id="i<b>">] and [<a href="#i<b>">] the element
    gets its new identifier and the link keeps the old one: [$()] took
    the text built from the identifier for markup, made nodes of its own
    from it, and selected nothing in the document. *)
Theorem markup_id_loses_its_references
    (select_raw : string → list Element → Result (list nat)) (w : World) :
  is_html (refs_selector "i<b>") = true ∧
  (elems Example.markup_doc !! 1) ≫= (λ e, Cheerio.attr e "href")
  = Some "#i<b>" ∧
  match Server.remapIds select_raw Example.markup_doc w with
  | (Ok d', _) =>
      (elems d' !! 0) ≫= (λ e, Cheerio.attr e "id")
      = Some ("id-" +:+ uuid_source w (drawn w)) ∧
      (elems d' !! 1) ≫= (λ e, Cheerio.attr e "href") = Some "#i<b>"
  | (Throw _, _) => False
  end.
Proof. vm_compute. done. Qed.

(** ** The theorems at work on the stand-in engines *)



Lemma processHtml_is_deterministic_witness :
  fst (Server.processHtml Example.juice
         (Example.load Example.crossed_ref_doc) Example.html_of
         Example.select_raw (Js.Str "<div id=i1></div>") Example.world)
  = fst (Server.processHtml Example.juice
           (Example.load Example.crossed_ref_doc) Example.html_of
           Example.select_raw (Js.Str "<div id=i1></div>")
           Example.world_with_template) ∧
  files (snd (Server.processHtml Example.juice
                (Example.load Example.crossed_ref_doc) Example.html_of
                Example.select_raw (Js.Str "<div id=i1></div>")
                Example.world))
  = files Example.world ∧
  ∃ l, log (snd (Server.processHtml Example.juice
                   (Example.load Example.crossed_ref_doc) Example.html_of
                   Example.select_raw (Js.Str "<div id=i1></div>")
                   Example.world))
       = (log Example.world ++ l)%list ∧
       (∀ p, ReadFile p ∉ l) ∧
       ∀ e, e ∈ l → (∃ x, e = CallJuice x) ∨ (∃ s, e = CallLoad s).
Proof.
  apply (processHtml_is_deterministic Example.juice
           (Example.load Example.crossed_ref_doc) Example.html_of
           Example.select_raw (Js.Str "<div id=i1></div>")
           Example.world Example.world_with_template).
  intros r. reflexivity.
Defined.

Lemma empty_body_is_rejected_witness :
  (Js.Str "" = Js.Str "" ∨ Js.Str "" = Js.Null ∨ Js.Str "" = Js.Undefined →
     (∃ resp,
        Example.app Example.label_doc Example.empty_post Example.world
        = (Ok resp, Example.world) ∧
        status resp = 400 ∧
        res_body resp
        = Json (Js.Obj [("error", Js.Str "No HTML content provided")])) ∧
     Server.processHtml Example.juice (Example.load Example.label_doc)
       Example.html_of Example.select_raw (Js.Str "") Example.world
     = (Throw (mkError "HTML content is required" None), Example.world)) ∧
  (Js.truthy (Js.Str "") = true →
     ∃ l, log (snd (Example.app Example.label_doc Example.empty_post
                      Example.world))
          = (log Example.world ++ CallJuice (Js.Str "") :: l)%list) ∧
  (∀ s, Js.Str "" = Js.Str s → s ≠ "" → Js.truthy (Js.Str "") = true).
Proof.
  apply (empty_body_is_rejected Example.juice
           (Example.load Example.label_doc) Example.html_of
           Example.select_raw Example.route_matches Example.express
           Example.empty_post (Js.Str "") Example.world);
    reflexivity.
Defined.

(** The claim C4 as it was stated speaks of the body of the request, and
    fails for two kinds of body.  An empty body sent as
    [application/json] reaches the handler as the empty object, which is
    truthy: the inliner is called on it and the answer is what becomes
    of that call, here the 500 of a processing failure, where the claim
    has a 400.  And a body that is not empty but that the parsers reject
    never reaches the handler: nothing is processed, and the error
    handler answers. *)
Lemma empty_body_counterexample :
  (∃ resp w',
     Example.app Example.label_doc Example.empty_json_post Example.world
     = (Ok resp, w') ∧
     status resp = 500 ∧
     res_body resp
     = Json (Js.Obj [("success", Js.Bool false);
                     ("error", Js.Str "Failed to process HTML");
                     ("message", Js.Str "html.replace is not a function")]) ∧
     CallJuice (Js.Obj []) ∈ log w') ∧
  (∃ resp w',
     Example.app Example.label_doc Example.bad_json_post Example.world
     = (Ok resp, w') ∧
     status resp = 500 ∧
     res_body resp = Text "Internal Server Error" ∧
     ∀ v, CallJuice v ∉ log w').
Proof.
  split; eexists _, _; (split; [vm_compute; reflexivity|]);
    (split; [reflexivity|]); (split; [reflexivity|]).
  - apply elem_of_cons. by left.
  - intros v Hin. apply elem_of_cons in Hin as [Hin | Hin]; [done|].
    by apply elem_of_nil in Hin.
Qed.

Lemma processing_error_is_500_witness :
  ∃ resp w',
    Example.app Example.label_doc Example.object_post Example.world
    = (Ok resp, w') ∧
    status resp = 500 ∧
    res_body resp
    = Json (Js.Obj [("success", Js.Bool false);
                    ("error", Js.Str "Failed to process HTML");
                    ("message", Js.Str "html.replace is not a function")]).
Proof.
  apply (processing_error_is_500 Example.juice
           (Example.load Example.label_doc) Example.html_of
           Example.select_raw Example.route_matches Example.express
           Example.object_post (Js.Obj [("a", Js.Num 1)]) PostProcess
           Example.world);
    first [reflexivity | by left].
Defined.

Lemma truthy_body_is_never_rejected_witness :
  ∃ resp w',
    Example.app Example.label_doc Example.object_post_download Example.world
    = (Ok resp, w') ∧
    status resp ≠ 400 ∧
    (∃ l, log w'
          = (log Example.world ++ CallJuice (Js.Obj [("a", Js.Num 1)]) :: l)%list) ∧
    ∀ err,
      fst (Server.processHtml Example.juice (Example.load Example.label_doc)
             Example.html_of Example.select_raw
             (Js.Obj [("a", Js.Num 1)]) Example.world)
      = Throw err →
      status resp = 500 ∧
      res_body resp
      = Json (Js.Obj [("success", Js.Bool false);
                      ("error", Js.Str "Failed to process HTML");
                      ("message", Js.Str (message err))]).
Proof.
  apply (truthy_body_is_never_rejected Example.juice
           (Example.load Example.label_doc) Example.html_of
           Example.select_raw Example.route_matches Example.express
           Example.object_post_download (Js.Obj [("a", Js.Num 1)])
           PostProcessDownload Example.world);
    first [reflexivity | by right | by intros s].
Defined.

Lemma cors_on_parsed_requests_witness :
  (∃ resp w',
     Example.app Example.label_doc Example.options_request Example.world
     = (Ok resp, w') ∧
     res_headers resp !! "Access-Control-Allow-Origin" = Some "*" ∧
     res_headers resp !! "Access-Control-Allow-Methods"
     = Some "GET, POST, PUT, DELETE, OPTIONS" ∧
     res_headers resp !! "Access-Control-Allow-Headers"
     = Some "Origin, X-Requested-With, Content-Type, Accept, Authorization, X-Filename") ∧
  (method Example.options_request = "OPTIONS" →
     (∀ res next, ∃ resp,
        Server.cors Example.express Example.options_request res next
          Example.world
        = (Ok resp, Example.world) ∧
        status resp = 200 ∧ res_body resp = Text "OK") ∧
     ∃ resp,
       Example.app Example.label_doc Example.options_request Example.world
       = (Ok resp, Example.world) ∧
       status resp = 200 ∧ res_body resp = Text "OK").
Proof.
  apply (cors_on_parsed_requests Example.juice
           (Example.load Example.label_doc) Example.html_of
           Example.select_raw Example.route_matches Example.express
           Example.options_request Js.Undefined Example.world).
  reflexivity.
Defined.

(** The claim C7 as it was stated fails twice over: the answer to an
    OPTIONS request has a body, the status message; and a request whose
    body the parsers rejected is answered by the error handler, which the
    CORS middleware never saw, so that the answer has no
    [Access-Control-Allow-Origin] header. *)
Lemma cors_counterexample :
  (∃ resp,
     Example.app Example.label_doc Example.options_request Example.world
     = (Ok resp, Example.world) ∧
     status resp = 200 ∧ res_body resp = Text "OK" ∧ res_body resp ≠ NoBody) ∧
  (∃ resp w',
     Example.app Example.label_doc Example.bad_json_post Example.world
     = (Ok resp, w') ∧
     status resp = 500 ∧
     res_headers resp !! "Access-Control-Allow-Origin" = None).
Proof.
  split.
  - eexists. split; [vm_compute; reflexivity|]. by vm_compute.
  - eexists _, _. split; [vm_compute; reflexivity|]. by vm_compute.
Qed.

(** ** References, where no element mixes the two conventions *)

Lemma attr_equals_true name v el :
  Cheerio.attr_equals name v el = true ↔ Cheerio.attr el name = Some v.
Proof.
  unfold Cheerio.attr_equals. destruct (Cheerio.attr el name) as [v'|].
  - rewrite String.eqb_eq. split; [by intros -> | by intros [= ->]].
  - done.
Qed.

Lemma has_attr_Some name v el :
  Cheerio.attr el name = Some v → v ≠ "" → Cheerio.has_attr el name = true.
Proof.
  intros H Hv. unfold Cheerio.has_attr. rewrite H.
  by destruct (String.eqb_spec v "").
Qed.

Lemma has_attr_set_attr_ne el name name' v :
  name ≠ name' →
  Cheerio.has_attr (Cheerio.set_attr el name v) name'
  = Cheerio.has_attr el name'.
Proof.
  intros H. unfold Cheerio.has_attr. by rewrite attr_set_attr_ne.
Qed.

Lemma has_attr_set_attr_eq el name v :
  v ≠ "" → Cheerio.has_attr (Cheerio.set_attr el name v) name = true.
Proof.
  intros H. eapply has_attr_Some; [apply attr_set_attr_eq | done].
Qed.

Lemma ref_text_inj c : Inj (=) (=) (ref_text c).
Proof.
  destruct c; intros x y H; simpl in H; [|done].
  by apply (inj (String.app "#")) in H.
Qed.

Lemma ref_text_nonempty c id : id ≠ "" → ref_text c id ≠ "".
Proof. destruct c; [done | done]. Qed.

Lemma is_ref_iff old el :
  is_ref old el = true ↔
  Cheerio.attr el "href" = Some ("#" +:+ old) ∨ Cheerio.attr el "for" = Some old.
Proof.
  unfold is_ref. by rewrite orb_true_iff, !attr_equals_true.
Qed.

(** What the inner loop does to the [href] or the [for] of one element
    that keeps to one convention: a reference to [old] becomes a reference
    to [new], anything else stays. *)
Lemma rewrite_one_convention c old new el :
  one_convention el → old ≠ "" → new ≠ "" →
  (Cheerio.attr el (ref_attr c) = Some (ref_text c old) →
   Cheerio.attr (if is_ref old el then rewrite_ref new el else el)
     (ref_attr c) = Some (ref_text c new)) ∧
  (Cheerio.attr el (ref_attr c) ≠ Some (ref_text c old) →
   Cheerio.attr (if is_ref old el then rewrite_ref new el else el)
     (ref_attr c) = Cheerio.attr el (ref_attr c)) ∧
  one_convention (if is_ref old el then rewrite_ref new el else el).
Proof.
  intros Hone Hold Hnew. unfold one_convention in *.
  assert (Hhash : ∀ s, "#" +:+ s ≠ "") by done.
  destruct (is_ref old el) eqn:Href.
  - apply is_ref_iff in Href. unfold rewrite_ref.
    destruct (Cheerio.has_attr el "href") eqn:Hh.
    + simpl in Hone. rewrite has_attr_set_attr_ne, Hone by done.
      assert (Cheerio.attr el "href" = Some ("#" +:+ old)) as Hhref.
      { destruct Href as [?|Hfor]; [done|].
        apply has_attr_Some in Hfor; [congruence | done]. }
      split; [|split].
      * destruct c; simpl; intros Hc.
        -- apply attr_set_attr_eq.
        -- apply has_attr_Some in Hc; [congruence | done].
      * destruct c; simpl; intros Hc; [done|].
        by apply attr_set_attr_ne.
      * rewrite has_attr_set_attr_eq by done.
        by rewrite has_attr_set_attr_ne, Hone.
    + assert (Cheerio.attr el "for" = Some old) as Hfor.
      { destruct Href as [Hhref|?]; [|done].
        apply has_attr_Some in Hhref; [congruence | done]. }
      rewrite (has_attr_Some _ _ _ Hfor Hold).
      split; [|split].
      * destruct c; simpl; intros Hc.
        -- apply has_attr_Some in Hc; [congruence | done].
        -- apply attr_set_attr_eq.
      * destruct c; simpl; intros Hc; [|done].
        by apply attr_set_attr_ne.
      * by rewrite has_attr_set_attr_ne, Hh.
  - split; [|done]. intros Hc. exfalso.
    assert (is_ref old el = true); [|congruence].
    apply is_ref_iff. destruct c; [by left | by right].
Qed.

Lemma one_convention_set_id el v :
  one_convention el → one_convention (Cheerio.set_attr el "id" v).
Proof.
  unfold one_convention. by rewrite !has_attr_set_attr_ne.
Qed.

Section References.

Variable select_raw : string → list Element → Result (list nat).

Local Abbreviation remap_each := (Server.remap_each select_raw).
Local Abbreviation remapIds := (Server.remapIds select_raw).

(** One iteration, seen from any element: its identifier is untouched
    unless it is the element of the iteration, and its [href] and [for]
    are rewritten as [rewrite_one_convention] says. *)
Lemma remap_step_refs c (els : list Element) k el old u j e e2 :
  els !! k = Some el → old ≠ "" →
  els !! j = Some e → one_convention e →
  Cheerio.each (Cheerio.select (is_ref old)
                  (<[k := Cheerio.set_attr el "id" ("id-" +:+ u)]> els))
    (rewrite_ref ("id-" +:+ u))
    (<[k := Cheerio.set_attr el "id" ("id-" +:+ u)]> els) !! j = Some e2 →
  (Cheerio.attr e (ref_attr c) = Some (ref_text c old) →
   Cheerio.attr e2 (ref_attr c) = Some (ref_text c ("id-" +:+ u))) ∧
  (Cheerio.attr e (ref_attr c) ≠ Some (ref_text c old) →
   Cheerio.attr e2 (ref_attr c) = Cheerio.attr e (ref_attr c)) ∧
  one_convention e2.
Proof.
  intros Hk Hold Hj Hone. rewrite each_select, list_lookup_fmap.
  intros He2. apply fmap_Some in He2 as (e1 & He1 & ->).
  assert (Cheerio.attr e1 (ref_attr c) = Cheerio.attr e (ref_attr c)
          ∧ one_convention e1) as [Hsame Hone1].
  { destruct (decide (j = k)) as [-> | Hne].
    - rewrite list_lookup_insert_eq in He1 by (by eapply lookup_lt_Some).
      assert (e = el) as -> by congruence. injection He1 as <-.
      split; [|by apply one_convention_set_id].
      apply attr_set_attr_ne. by destruct c.
    - rewrite list_lookup_insert_ne in He1 by done.
      by assert (e1 = e) as -> by congruence. }
  rewrite <- Hsame.
  by apply rewrite_one_convention.
Qed.

(** The loop on a document in which no element mixes the conventions, the
    selected identifiers are safe for the selector and do not make it read
    as markup, and no draw makes an identifier that a selected element
    already has. *)
Lemma remap_each_refs c sel : ∀ els w els' w',
  NoDup sel →
  (∀ k, k ∈ sel → ∃ el old, els !! k = Some el ∧
       Cheerio.attr el "id" = Some old ∧ old ≠ "" ∧
       selector_safe old = true ∧
       is_html (refs_selector old) = false) →
  (∀ j e, els !! j = Some e → one_convention e) →
  (∀ r k el, r < length sel → k ∈ sel → els !! k = Some el →
     Cheerio.attr el "id" ≠ Some ("id-" +:+ uuid_source w (drawn w + r))) →
  remap_each sel els w = (Ok els', w') →
  ∀ j e e', els !! j = Some e → els' !! j = Some e' →
    (∀ r k t old,
       sel !! r = Some k → els !! k = Some t →
       Cheerio.attr t "id" = Some old →
       (∀ r' k' t', r' < r → sel !! r' = Some k' → els !! k' = Some t' →
                    Cheerio.attr t' "id" ≠ Some old) →
       Cheerio.attr e (ref_attr c) = Some (ref_text c old) →
       Cheerio.attr e' (ref_attr c)
       = Some (ref_text c ("id-" +:+ uuid_source w (drawn w + r)))) ∧
    ((∀ k t old, k ∈ sel → els !! k = Some t →
                 Cheerio.attr t "id" = Some old →
                 Cheerio.attr e (ref_attr c) ≠ Some (ref_text c old)) →
     Cheerio.attr e' (ref_attr c) = Cheerio.attr e (ref_attr c)).
Proof.
  induction sel as [|k rest IH];
    intros els w els' w' Hnd Hsel Hone Hfresh Hrun j e e' Hj Hj'.
  { injection Hrun as <- <-. assert (e' = e) as -> by congruence.
    split; [by intros r k t old ?|done]. }
  apply NoDup_cons in Hnd as [Hk_rest Hnd].
  destruct (Hsel k) as (el & oldk & Hk & Hidk & Holdk & Hsafe & Htext);
    [by left|].
  rewrite (remap_each_cons _ _ _ _ _ _ Hk) in Hrun. cbv zeta in Hrun.
  rewrite Hidk in Hrun. simpl default in Hrun.
  rewrite query_refs_safe in Hrun by done.
  set (u := uuid_source w (drawn w)) in *.
  set (els2 := Cheerio.each _ _ _) in Hrun.
  set (w1 := mkWorld _ _ _ _) in Hrun.
  (* the elements of the rest keep their identifiers *)
  assert (Hid2 : ∀ k' t2, k' ≠ k → els2 !! k' = Some t2 →
            ∃ t, els !! k' = Some t ∧
                 Cheerio.attr t2 "id" = Cheerio.attr t "id").
  { intros k' t2 Hne Ht2.
    destruct (remap_step_lookup _ _ _ _ _ _ _ Hk Ht2)
      as (t & Ht & _ & _ & Hid).
    rewrite decide_False in Hid by done. eauto. }
  assert (Hlookup2 : ∀ i t, els !! i = Some t → is_Some (els2 !! i)).
  { intros i t Ht. by eapply remap_step_lookup_Some. }
  destruct (Hlookup2 j e Hj) as [e2 He2].
  destruct (remap_step_refs c els k el oldk u j e e2 Hk Holdk Hj
              (Hone j e Hj) He2) as (Hhit & Hmiss & _).
  (* the induction hypothesis, on what the first iteration left *)
  assert (Hrest_ne : ∀ k', k' ∈ rest → k' ≠ k) by (by intros k' ? ->).
  specialize (IH els2 w1 els' w' Hnd).
  destruct IH with (j := j) (e := e2) (e' := e') as [IHhit IHmiss];
    [| | |exact Hrun|exact He2|exact Hj'|].
  { intros k' Hk'. destruct (Hsel k') as (t & old & Ht & Hid & Hne & Hs & Hm);
      [by right|].
    destruct (Hlookup2 k' t Ht) as [t2 Ht2].
    destruct (Hid2 k' t2 (Hrest_ne k' Hk') Ht2) as (t' & Ht' & Hid').
    exists t2, old. split; [done|]. split; [congruence | done]. }
  { intros i t2 Ht2.
    destruct (remap_step_lookup _ _ _ _ _ _ _ Hk Ht2)
      as (t & Ht & _ & _ & _).
    by destruct (remap_step_refs c els k el oldk u i t t2 Hk Holdk Ht
                   (Hone i t Ht) Ht2) as (_ & _ & ?). }
  { intros r k' t2 Hr Hk' Ht2. simpl.
    destruct (Hid2 k' t2 (Hrest_ne k' Hk') Ht2) as (t & Ht & ->).
    rewrite <- Nat.add_succ_r.
    apply (Hfresh (S r) k' t); [simpl; lia | by right | done]. }
  split.
  - intros r k' t old Hr Ht Hid Hfirst Hattr. destruct r as [|r]; simpl in Hr.
    + injection Hr as <-. assert (t = el) as -> by congruence.
      assert (old = oldk) as -> by congruence.
      rewrite Nat.add_0_r. fold u. rewrite <- (Hhit Hattr).
      apply IHmiss. intros k' t2 old2 Hk' Ht2 Hid2' Heq.
      rewrite (Hhit Hattr) in Heq. injection Heq as Heq.
      apply (ref_text_inj c) in Heq.
      destruct (Hid2 k' t2 (Hrest_ne k' Hk') Ht2) as (t0 & Ht0 & Hsame).
      apply (Hfresh 0 k' t0); [simpl; lia | by right | done |].
      rewrite Nat.add_0_r. fold u. congruence.
    + assert (oldk ≠ old) as Hne.
      { intros ->. by apply (Hfirst 0 k el); [lia|..]. }
      assert (Cheerio.attr e (ref_attr c) ≠ Some (ref_text c oldk)) as Hno.
      { rewrite Hattr. intros [= Heq]. by apply (ref_text_inj c) in Heq. }
      assert (k' ≠ k) as Hk'.
      { apply Hrest_ne. apply list_elem_of_lookup. eauto. }
      destruct (Hlookup2 k' t Ht) as [t2 Ht2].
      destruct (Hid2 k' t2 Hk' Ht2) as (t0 & Ht0 & Hsame).
      assert (t0 = t) as -> by congruence.
      rewrite <- Nat.add_succ_comm.
      apply (IHhit r k' t2 old); [done | done | congruence | |].
      * intros r' k'' t'' Hlt Hr' Ht''.
        assert (k'' ≠ k) as Hk''.
        { apply Hrest_ne. apply list_elem_of_lookup. eauto. }
        destruct (Hid2 k'' t'' Hk'' Ht'') as (t1 & Ht1 & ->).
        apply (Hfirst (S r') k'' t1); [lia | done | done].
      * by rewrite (Hmiss Hno).
  - intros Hnone.
    assert (Cheerio.attr e (ref_attr c) ≠ Some (ref_text c oldk)) as Hno.
    { apply (Hnone k el oldk); [by left | done | done]. }
    rewrite <- (Hmiss Hno). apply IHmiss.
    intros k' t2 old2 Hk' Ht2 Hid2'. rewrite (Hmiss Hno).
    destruct (Hid2 k' t2 (Hrest_ne k' Hk') Ht2) as (t & Ht & Hsame).
    apply (Hnone k' t old2); [by right | done | congruence].
Qed.

(** X1: in a document where no element carries both a non-empty [href]
    and a non-empty [for], where no matching identifier has a quote or a
    backslash in it or makes the selector built from it read as markup (a
    [<], a letter right after it and a [>] further on), and where no draw
    makes an identifier that the document already uses, the references
    follow their targets.  An [href="#old"]
    or a [for="old"] whose [old] is the identifier of an element that
    matches the pattern ends up referring to the new identifier of the
    first such element in document order; an [href] or a [for] that refers
    to no such identifier is left as it is. *)
Theorem references_follow_their_targets
    (c : RefKind) (d d' : Document) (w w' : World) :
  remapIds d w = (Ok d', w') →
  (∀ el, el ∈ elems d → is_auto_id el = true →
         selector_safe (default "undefined" (Cheerio.attr el "id")) = true) →
  (∀ el, el ∈ elems d → is_auto_id el = true →
         is_html (refs_selector (default "undefined" (Cheerio.attr el "id")))
         = false) →
  (∀ el, el ∈ elems d → one_convention el) →
  (∀ r el, r < length (Cheerio.select is_auto_id (elems d)) →
           el ∈ elems d →
           Cheerio.attr el "id"
           ≠ Some ("id-" +:+ uuid_source w (drawn w + r))) →
  ∀ j e e', elems d !! j = Some e → elems d' !! j = Some e' →
    (∀ k t old,
       elems d !! k = Some t → is_auto_id t = true →
       Cheerio.attr t "id" = Some old →
       (∀ k' t', k' < k → elems d !! k' = Some t' →
                 Cheerio.attr t' "id" ≠ Some old) →
       Cheerio.attr e (ref_attr c) = Some (ref_text c old) →
       ∃ t' new, elems d' !! k = Some t' ∧
                 Cheerio.attr t' "id" = Some new ∧
                 Cheerio.attr e' (ref_attr c) = Some (ref_text c new)) ∧
    ((∀ t old, t ∈ elems d → is_auto_id t = true →
               Cheerio.attr t "id" = Some old →
               Cheerio.attr e (ref_attr c) ≠ Some (ref_text c old)) →
     Cheerio.attr e' (ref_attr c) = Cheerio.attr e (ref_attr c)).
Proof.
  intros Hrun Hsafe Htext Hone Hfresh j e e' Hj Hj'.
  apply remapIds_ok in Hrun as [_ Hrun].
  pose proof (remap_each_ok _ _ _ _ _ _ (NoDup_select _ _) (select_lt _ _)
                Hrun) as (_ & _ & _ & Hnew).
  assert (Hsel : ∀ k, k ∈ Cheerio.select is_auto_id (elems d) →
            ∃ el old, elems d !! k = Some el ∧
              Cheerio.attr el "id" = Some old ∧ old ≠ "" ∧
              selector_safe old = true ∧
              is_html (refs_selector old) = false).
  { intros k (el & Hel & Hauto)%elem_of_select.
    pose proof Hauto as [rest Hid]%is_auto_id_iff.
    exists el, (String "i" rest). split; [done|]. split; [done|].
    split; [done|].
    assert (el ∈ elems d) as Hin by (apply list_elem_of_lookup; eauto).
    specialize (Hsafe el Hin Hauto). specialize (Htext el Hin Hauto).
    rewrite Hid in Hsafe, Htext. done. }
  assert (Hone' : ∀ i t, elems d !! i = Some t → one_convention t).
  { intros i t Ht. apply Hone, list_elem_of_lookup. eauto. }
  assert (Hfresh' : ∀ r k el,
            r < length (Cheerio.select is_auto_id (elems d)) →
            k ∈ Cheerio.select is_auto_id (elems d) →
            elems d !! k = Some el →
            Cheerio.attr el "id"
            ≠ Some ("id-" +:+ uuid_source w (drawn w + r))).
  { intros r k el Hr _ Hel. apply Hfresh; [done|].
    apply list_elem_of_lookup. eauto. }
  pose proof (remap_each_refs c _ _ _ _ _ (NoDup_select _ _) Hsel Hone'
                Hfresh' Hrun j e e' Hj Hj') as [Hhit Hmiss].
  split.
  - intros k t old Ht Hauto Hid Hfirst Hattr.
    assert (k ∈ Cheerio.select is_auto_id (elems d)) as Hin
      by (apply elem_of_select; eauto).
    apply list_elem_of_lookup in Hin as [r Hr].
    destruct (Hnew r k Hr) as (t' & Ht' & Hid').
    exists t', ("id-" +:+ uuid_source w (drawn w + r)).
    split; [done|]. split; [done|].
    apply (Hhit r k t old); [done..| |done].
    intros r' k' t0 Hlt Hr' Ht0. apply (Hfirst k' t0); [|done].
    by eapply select_from_increasing.
  - intros Hnone. apply Hmiss.
    intros k t old (t0 & Ht0 & Hauto)%elem_of_select Ht Hid.
    assert (t0 = t) as -> by congruence.
    apply (Hnone t old); [|done..]. apply list_elem_of_lookup. eauto.
Qed.

End References.

Lemma references_follow_their_targets_witness :
  (∀ k t old,
     elems Example.label_doc !! k = Some t → is_auto_id t = true →
     Cheerio.attr t "id" = Some old →
     (∀ k' t', k' < k → elems Example.label_doc !! k' = Some t' →
               Cheerio.attr t' "id" ≠ Some old) →
     Cheerio.attr (Example.el "label" [("for", "i2")]) (ref_attr For)
     = Some (ref_text For old) →
     ∃ t' new,
       elems (Example.remapped Example.label_doc) !! k = Some t' ∧
       Cheerio.attr t' "id" = Some new ∧
       Cheerio.attr
         (Example.el "label"
            [("for", "id-3f2b8c1e-58a4-4d0b-9c57-0a1d6e4f7b21")])
         (ref_attr For)
       = Some (ref_text For new)) ∧
  ((∀ t old, t ∈ elems Example.label_doc → is_auto_id t = true →
             Cheerio.attr t "id" = Some old →
             Cheerio.attr (Example.el "label" [("for", "i2")]) (ref_attr For)
             ≠ Some (ref_text For old)) →
   Cheerio.attr
     (Example.el "label"
        [("for", "id-3f2b8c1e-58a4-4d0b-9c57-0a1d6e4f7b21")])
     (ref_attr For)
   = Cheerio.attr (Example.el "label" [("for", "i2")]) (ref_attr For)).
Proof.
  apply (references_follow_their_targets Example.select_raw For
           Example.label_doc (Example.remapped Example.label_doc)
           Example.world (Example.world_after Example.label_doc)) with (j := 0).
  - vm_compute. reflexivity.
  - intros el Hel Hel_auto.
    repeat (apply elem_of_cons in Hel as [-> | Hel]);
      try (by apply elem_of_nil in Hel); by vm_compute.
  - intros el Hel Hel_auto.
    repeat (apply elem_of_cons in Hel as [-> | Hel]);
      try (by apply elem_of_nil in Hel); by vm_compute.
  - intros el Hel.
    repeat (apply elem_of_cons in Hel as [-> | Hel]);
      try (by apply elem_of_nil in Hel); by vm_compute.
  - intros r el Hr Hel. change (length _) with 1 in Hr.
    destruct r as [|r]; [|lia].
    repeat (apply elem_of_cons in Hel as [-> | Hel]);
      try (by apply elem_of_nil in Hel); vm_compute; discriminate.
  - reflexivity.
  - vm_compute. reflexivity.
Defined.

(** ** What step 2 leaves alone, and what a second run does *)

Lemma select_from_ext (p : Element → bool) (els : list Element) :
  ∀ els' i,
    length els' = length els →
    (∀ j e e', els !! j = Some e → els' !! j = Some e' → p e' = p e) →
    Cheerio.select_from i p els' = Cheerio.select_from i p els.
Proof.
  induction els as [|e rest IH]; intros [|e' rest'] i Hlen Hp;
    simpl in *; try done.
  rewrite (Hp 0 e e') by done.
  rewrite (IH rest' (S i)); [done | lia |].
  intros j. apply (Hp (S j)).
Qed.

Section Frame.

Variable select_raw : string → list Element → Result (list nat).

Local Abbreviation remapIds := (Server.remapIds select_raw).

(** X2: whenever step 2 returns, the tree is the one it was given, no
    element was added, removed or renamed, one value was drawn for each
    matching element, and every attribute other than [id], [href] and
    [for], an inline [style] for one, has the value it had. *)
Theorem remapping_writes_id_href_for_only (d : Document) (w : World) :
  match remapIds d w with
  | (Ok d', w') =>
      tree d' = tree d ∧
      length (elems d') = length (elems d) ∧
      drawn w' = drawn w + length (Cheerio.select is_auto_id (elems d)) ∧
      ∀ j el', elems d' !! j = Some el' →
        ∃ el, elems d !! j = Some el ∧ tagName el' = tagName el ∧
          Cheerio.attr el' "style" = Cheerio.attr el "style" ∧
          ∀ name, name ≠ "id" → name ≠ "href" → name ≠ "for" →
                  Cheerio.attr el' name = Cheerio.attr el name
  | (Throw _, _) => True
  end.
Proof.
  destruct (remapIds d w) as [[d'|e] w'] eqn:Hrun; [|done].
  apply remapIds_ok in Hrun as [Htree Hrun]. split; [done|].
  apply remap_each_ok in Hrun as (Hlen & Hdrawn & Hframe & _);
    [|apply NoDup_select|apply select_lt].
  split; [done|]. split; [done|].
  intros j el' Hj. destruct (Hframe j el' Hj) as (el & Hel & Ht & Ha & _).
  exists el. split; [done|]. split; [done|]. split; [by apply Ha | done].
Qed.

(** X3: the remapping is not idempotent.  The elements that match the
    pattern after a run are those that matched before it, so a second run
    on the output draws as many values again and gives every one of them
    yet another identifier. *)
Theorem second_run_remaps_again (d : Document) (w : World) :
  match remapIds d w with
  | (Ok d', w') =>
      Cheerio.select is_auto_id (elems d')
      = Cheerio.select is_auto_id (elems d) ∧
      match remapIds d' w' with
      | (Ok d'', w'') =>
          drawn w'' = drawn w' + length (Cheerio.select is_auto_id (elems d)) ∧
          ∀ r k, Cheerio.select is_auto_id (elems d) !! r = Some k →
            ∃ el'', elems d'' !! k = Some el'' ∧
              Cheerio.attr el'' "id"
              = Some ("id-" +:+ uuid_source w' (drawn w' + r))
      | (Throw _, _) => True
      end
  | (Throw _, _) => True
  end.
Proof.
  destruct (remapIds d w) as [[d'|e] w'] eqn:Hrun; [|done].
  apply remapIds_ok in Hrun as [_ Hrun].
  apply remap_each_ok in Hrun as (Hlen & _ & Hframe & Hnew);
    [|apply NoDup_select|apply select_lt].
  assert (Cheerio.select is_auto_id (elems d')
          = Cheerio.select is_auto_id (elems d)) as Hsel.
  { apply select_from_ext; [done|]. intros j el el' Hj Hj'.
    destruct (Hframe j el' Hj') as (el0 & Hel0 & _ & _ & Hid).
    assert (el0 = el) as -> by congruence.
    destruct (decide (j ∈ Cheerio.select is_auto_id (elems d)))
      as [Hin | Hout].
    - pose proof Hin as (el1 & Hel1 & Hauto)%elem_of_select.
      assert (el1 = el) as -> by congruence. rewrite Hauto.
      apply list_elem_of_lookup in Hin as [r Hr].
      destruct (Hnew r j Hr) as (el2 & Hel2 & Hid2).
      assert (el2 = el') as -> by congruence.
      by eapply is_auto_id_new.
    - unfold is_auto_id, Cheerio.attr_starts_with. by rewrite (Hid Hout). }
  split; [done|].
  destruct (remapIds d' w') as [[d''|e] w''] eqn:Hrun2; [|done].
  apply remapIds_ok in Hrun2 as [_ Hrun2].
  apply remap_each_ok in Hrun2 as (_ & Hdrawn2 & _ & Hnew2);
    [|apply NoDup_select|apply select_lt].
  rewrite Hsel in Hdrawn2, Hnew2. done.
Qed.

End Frame.

(** ** The template routes *)

Section Templates.

Variable juice : Js.value → JuiceOptions → Result string.
Variable load : string → Document.
Variable html_of : Document → string.
Variable select_raw : string → list Element → Result (list nat).
Variable route_matches : string → string → bool.
Variable express : Express.

Local Abbreviation processHtml :=
  (Server.processHtml juice load html_of select_raw).
Local Abbreviation match_route := (Server.match_route route_matches).
Local Abbreviation app :=
  (Server.app juice load html_of select_raw route_matches express).

Lemma is_enoent_decide err :
  Server.is_enoent err = bool_decide (code err = Some "ENOENT").
Proof.
  unfold Server.is_enoent. destruct (code err) as [c|]; [|done].
  destruct (String.eqb_spec c "ENOENT") as [-> | Hne].
  - by rewrite bool_decide_eq_true_2.
  - rewrite bool_decide_eq_false_2; [done|]. by intros [= ->].
Qed.

(** X4: GET / and GET /download, and HEAD on the same paths, read
    [template.html] and run the transform on it.  When both succeed the
    answer is the transformed text with status 200, unless the validators
    of the request match it: then the status is 304 and there is no body.
    When the error, of the read or of the transform, has the code ENOENT,
    the status is 404 and the body is
    [{error: "Template file not found", message: "Use POST <endpoint>
    endpoint to process HTML content via API"}], the endpoint being
    /process for the first route and /process-download for the second.
    Any other error, the one [processHtml] throws on an empty template
    among them, reaches the error handler: status 500 and the text
    Internal Server Error.  A HEAD request gets the status and no body. *)
Theorem template_routes_outcome
    (req : Request) (v : Js.value) (route : Route) (w : World) :
  body req = Ok v → match_route req = Some route →
  route = GetRoot ∨ route = GetDownload →
  ∃ resp w', app req w = (Ok resp, w') ∧
    match
      match files w "template.html" with
      | Ok content =>
          fst (processHtml (Js.Str content)
                 (snd (emit (ReadFile "template.html") w)))
      | Throw err => Throw err
      end
    with
    | Ok html =>
        if validators_match express (req_headers req) (Text html)
        then status resp = 304 ∧ res_body resp = NoBody
        else status resp = 200 ∧
             res_body resp
             = if String.eqb (method req) "HEAD" then NoBody else Text html
    | Throw err =>
        if bool_decide (code err = Some "ENOENT")
        then status resp = 404 ∧
             res_body resp
             = if String.eqb (method req) "HEAD" then NoBody
               else Json (Js.Obj
                      [("error", Js.Str "Template file not found");
                       ("message",
                        Js.Str ("Use POST "
                                +:+ match route with
                                    | GetRoot => "/process"
                                    | _ => "/process-download"
                                    end
                                +:+ " endpoint to process HTML content via API"))])
        else status resp = 500 ∧
             res_body resp
             = if String.eqb (method req) "HEAD" then NoBody
               else Text "Internal Server Error"
    end.
Proof.
  intros Hbody Hroute Hget.
  assert (Server.is_get req = true) as Hmethod.
  { unfold Server.match_route in Hroute.
    destruct (Server.is_get req); [done|]. simpl in Hroute.
    destruct Hget as [-> | ->]; repeat case_match; congruence. }
  rewrite (app_routed _ _ _ _ _ _ _ _ _ _ Hbody Hroute). unfold Server.router.
  rewrite Hroute.
  destruct Hget as [-> | ->];
    unfold Server.get_root, Server.get_download, try_catch, readFile,
      Server.template_path;
    unfold bind at 1; unfold bind at 1; simpl;
    (destruct (files w "template.html") as [content|err]; simpl;
     [unfold bind at 1; destruct (processHtml _ _) as [[html|err] w1]; simpl|]);
    rewrite ?is_enoent_decide;
    try (destruct (bool_decide (code err = Some "ENOENT"))); eexists _, _;
    (split; [reflexivity|]);
    unfold Res.send, Res.json;
    first [ rewrite finish_error by (simpl; lia)
          | rewrite (finish_get _ _ _ _ Hmethod) by done;
            destruct (validators_match express _ _) ];
    by split.
Qed.

End Templates.

Lemma template_routes_outcome_witness :
  ∃ resp w',
    Example.app Example.label_doc
      (Example.request "GET" "/" (Ok Js.Undefined)) Example.world
    = (Ok resp, w') ∧
    status resp = 404 ∧
    res_body resp
    = Json (Js.Obj
              [("error", Js.Str "Template file not found");
               ("message",
                Js.Str "Use POST /process endpoint to process HTML content via API")]).
Proof.
  apply (template_routes_outcome Example.juice
           (Example.load Example.label_doc) Example.html_of
           Example.select_raw Example.route_matches Example.express
           (Example.request "GET" "/" (Ok Js.Undefined)) Js.Undefined
           GetRoot Example.world);
    first [reflexivity | by left].
Defined.

(** ** References, as the loop leaves them in general *)

Lemma is_ref_ext old a b :
  Cheerio.attr a "href" = Cheerio.attr b "href" →
  Cheerio.attr a "for" = Cheerio.attr b "for" →
  is_ref old a = is_ref old b.
Proof.
  intros Hh Hf. unfold is_ref, Cheerio.attr_equals. by rewrite Hh, Hf.
Qed.

Lemma has_attr_ext name a b :
  Cheerio.attr a name = Cheerio.attr b name →
  Cheerio.has_attr a name = Cheerio.has_attr b name.
Proof. intros H. unfold Cheerio.has_attr. by rewrite H. Qed.

(** The body of the inner loop sets every non-empty [href] and [for] of
    the element it is given, and creates neither. *)
Lemma attr_rewrite_ref_kind c new el :
  new ≠ "" →
  Cheerio.attr (rewrite_ref new el) (ref_attr c)
  = if Cheerio.has_attr el (ref_attr c)
    then Some (ref_text c new) else Cheerio.attr el (ref_attr c).
Proof.
  intros Hnew. unfold rewrite_ref.
  destruct (Cheerio.has_attr el "href") eqn:Hh.
  - rewrite has_attr_set_attr_ne by done.
    destruct (Cheerio.has_attr el "for") eqn:Hf; destruct c; simpl;
      rewrite ?Hh, ?Hf, ?attr_set_attr_eq; try done;
      rewrite attr_set_attr_ne by done;
      rewrite ?attr_set_attr_eq; done.
  - destruct (Cheerio.has_attr el "for") eqn:Hf; destruct c; simpl;
      rewrite ?Hh, ?Hf, ?attr_set_attr_eq; try done.
    by rewrite attr_set_attr_ne.
Qed.

(** Once an element was rewritten towards [new], a selector for any other
    non-empty identifier no longer finds it. *)
Lemma is_ref_after_rewrite old new e e2 :
  old ≠ "" → new ≠ old →
  (∀ c, Cheerio.attr e2 (ref_attr c)
        = if Cheerio.has_attr e (ref_attr c)
          then Some (ref_text c new) else Cheerio.attr e (ref_attr c)) →
  is_ref old e2 = false.
Proof.
  intros Hold Hne Hattrs.
  destruct (is_ref old e2) eqn:Href; [|done]. exfalso.
  apply is_ref_iff in Href as [Hhref | Hfor].
  - pose proof (Hattrs Href) as H. simpl in H. rewrite Hhref in H.
    destruct (Cheerio.has_attr e "href") eqn:Hh.
    + apply (inj Some) in H. apply (inj (String.app "#")) in H. congruence.
    + symmetry in H. apply has_attr_Some in H; [congruence | done].
  - pose proof (Hattrs For) as H. simpl in H. rewrite Hfor in H.
    destruct (Cheerio.has_attr e "for") eqn:Hf.
    + congruence.
    + symmetry in H. apply has_attr_Some in H; [congruence | done].
Qed.

Section ReferencesInGeneral.

Variable select_raw : string → list Element → Result (list nat).

Local Abbreviation remap_each := (Server.remap_each select_raw).
Local Abbreviation remapIds := (Server.remapIds select_raw).

(** One iteration, seen from any element, without any assumption on the
    element. *)
Lemma remap_step_refs_general (els : list Element) k el old u j e e2 :
  els !! k = Some el →
  els !! j = Some e →
  Cheerio.each (Cheerio.select (is_ref old)
                  (<[k := Cheerio.set_attr el "id" ("id-" +:+ u)]> els))
    (rewrite_ref ("id-" +:+ u))
    (<[k := Cheerio.set_attr el "id" ("id-" +:+ u)]> els) !! j = Some e2 →
  ∀ c, Cheerio.attr e2 (ref_attr c)
       = if is_ref old e && Cheerio.has_attr e (ref_attr c)
         then Some (ref_text c ("id-" +:+ u))
         else Cheerio.attr e (ref_attr c).
Proof.
  intros Hk Hj. rewrite each_select, list_lookup_fmap.
  intros He2 c. apply fmap_Some in He2 as (e1 & He1 & ->).
  assert (Hsame : ∀ c, Cheerio.attr e1 (ref_attr c)
                       = Cheerio.attr e (ref_attr c)).
  { intros c'. destruct (decide (j = k)) as [-> | Hne].
    - rewrite list_lookup_insert_eq in He1 by (by eapply lookup_lt_Some).
      assert (e = el) as -> by congruence. injection He1 as <-.
      apply attr_set_attr_ne. by destruct c'.
    - rewrite list_lookup_insert_ne in He1 by done. congruence. }
  rewrite (is_ref_ext old e1 e (Hsame Href) (Hsame For)).
  destruct (is_ref old e); simpl; [|apply Hsame].
  rewrite attr_rewrite_ref_kind by done.
  by rewrite (has_attr_ext _ e1 e (Hsame c)), Hsame.
Qed.

Lemma remap_each_refs_general sel : ∀ els w els' w',
  NoDup sel →
  (∀ k, k ∈ sel → ∃ el old, els !! k = Some el ∧
       Cheerio.attr el "id" = Some old ∧ old ≠ "" ∧
       selector_safe old = true ∧
       is_html (refs_selector old) = false) →
  (∀ r k el, r < length sel → k ∈ sel → els !! k = Some el →
     Cheerio.attr el "id" ≠ Some ("id-" +:+ uuid_source w (drawn w + r))) →
  remap_each sel els w = (Ok els', w') →
  ∀ j e e', els !! j = Some e → els' !! j = Some e' →
    (∀ r k t old,
       sel !! r = Some k → els !! k = Some t →
       Cheerio.attr t "id" = Some old → is_ref old e = true →
       (∀ r' k' t' old', r' < r → sel !! r' = Some k' →
          els !! k' = Some t' → Cheerio.attr t' "id" = Some old' →
          is_ref old' e = false) →
       ∀ c, Cheerio.attr e' (ref_attr c)
            = if Cheerio.has_attr e (ref_attr c)
              then Some (ref_text c
                           ("id-" +:+ uuid_source w (drawn w + r)))
              else Cheerio.attr e (ref_attr c)) ∧
    ((∀ k t old, k ∈ sel → els !! k = Some t →
                 Cheerio.attr t "id" = Some old → is_ref old e = false) →
     ∀ c, Cheerio.attr e' (ref_attr c) = Cheerio.attr e (ref_attr c)).
Proof.
  induction sel as [|k rest IH];
    intros els w els' w' Hnd Hsel Hfresh Hrun j e e' Hj Hj'.
  { injection Hrun as <- <-. assert (e' = e) as -> by congruence.
    split; [by intros r k t old ?|done]. }
  apply NoDup_cons in Hnd as [Hk_rest Hnd].
  destruct (Hsel k) as (el & oldk & Hk & Hidk & Holdk & Hsafe & Htext);
    [by left|].
  rewrite (remap_each_cons _ _ _ _ _ _ Hk) in Hrun. cbv zeta in Hrun.
  rewrite Hidk in Hrun. simpl default in Hrun.
  rewrite query_refs_safe in Hrun by done.
  set (u := uuid_source w (drawn w)) in *.
  set (els2 := Cheerio.each _ _ _) in Hrun.
  set (w1 := mkWorld _ _ _ _) in Hrun.
  assert (Hid2 : ∀ k' t2, k' ≠ k → els2 !! k' = Some t2 →
            ∃ t, els !! k' = Some t ∧
                 Cheerio.attr t2 "id" = Cheerio.attr t "id").
  { intros k' t2 Hne Ht2.
    destruct (remap_step_lookup _ _ _ _ _ _ _ Hk Ht2)
      as (t & Ht & _ & _ & Hid).
    rewrite decide_False in Hid by done. eauto. }
  assert (Hlookup2 : ∀ i t, els !! i = Some t → is_Some (els2 !! i)).
  { intros i t Ht. by eapply remap_step_lookup_Some. }
  destruct (Hlookup2 j e Hj) as [e2 He2].
  pose proof (remap_step_refs_general els k el oldk u j e e2 Hk Hj He2)
    as Hstep.
  assert (Hrest_ne : ∀ k', k' ∈ rest → k' ≠ k) by (by intros k' ? ->).
  specialize (IH els2 w1 els' w' Hnd).
  destruct IH with (j := j) (e := e2) (e' := e') as [IHhit IHmiss];
    [| |exact Hrun|exact He2|exact Hj'|].
  { intros k' Hk'. destruct (Hsel k') as (t & old & Ht & Hid & Hne & Hs & Hm);
      [by right|].
    destruct (Hlookup2 k' t Ht) as [t2 Ht2].
    destruct (Hid2 k' t2 (Hrest_ne k' Hk') Ht2) as (t' & Ht' & Hid').
    exists t2, old. split; [done|]. split; [congruence | done]. }
  { intros r k' t2 Hr Hk' Ht2. simpl.
    destruct (Hid2 k' t2 (Hrest_ne k' Hk') Ht2) as (t & Ht & ->).
    rewrite <- Nat.add_succ_r.
    apply (Hfresh (S r) k' t); [simpl; lia | by right | done]. }
  (* when the first iteration does not select [e], it leaves its
     references as they were *)
  assert (Hskip : is_ref oldk e = false →
            (∀ c, Cheerio.attr e2 (ref_attr c) = Cheerio.attr e (ref_attr c))
            ∧ ∀ old, is_ref old e2 = is_ref old e).
  { intros Hno. assert (∀ c, Cheerio.attr e2 (ref_attr c)
                             = Cheerio.attr e (ref_attr c)) as Hsame.
    { intros c. by rewrite Hstep, Hno. }
    split; [done|]. intros old.
    apply is_ref_ext; [apply (Hsame Href) | apply (Hsame For)]. }
  split.
  - intros r k' t old Hr Ht Hid Href Hfirst c.
    destruct r as [|r]; simpl in Hr.
    + injection Hr as <-. assert (t = el) as -> by congruence.
      assert (old = oldk) as -> by congruence.
      rewrite Nat.add_0_r. fold u.
      assert (Hset : ∀ c, Cheerio.attr e2 (ref_attr c)
                = if Cheerio.has_attr e (ref_attr c)
                  then Some (ref_text c ("id-" +:+ u))
                  else Cheerio.attr e (ref_attr c)).
      { intros c'. by rewrite Hstep, Href. }
      rewrite <- Hset. apply IHmiss.
      intros k' t2 old2 Hk' Ht2 Hid2'.
      destruct (Hid2 k' t2 (Hrest_ne k' Hk') Ht2) as (t0 & Ht0 & Hsame).
      destruct (Hsel k') as (t1 & old1 & Ht1 & Hid1 & Hne1 & _); [by right|].
      assert (t1 = t0) as -> by congruence.
      assert (old2 = old1) as -> by congruence.
      eapply is_ref_after_rewrite; [done| |exact Hset].
      intros Heq. apply (Hfresh 0 k' t0); [simpl; lia | by right | done |].
      rewrite Nat.add_0_r. fold u. congruence.
    + assert (is_ref oldk e = false) as Hno.
      { by apply (Hfirst 0 k el oldk); [lia|..]. }
      destruct (Hskip Hno) as [Hsame Hsame_ref].
      assert (k' ≠ k) as Hk'.
      { apply Hrest_ne. apply list_elem_of_lookup. eauto. }
      destruct (Hlookup2 k' t Ht) as [t2 Ht2].
      destruct (Hid2 k' t2 Hk' Ht2) as (t0 & Ht0 & Hsame_id).
      assert (t0 = t) as -> by congruence.
      rewrite <- Nat.add_succ_comm.
      rewrite <- (has_attr_ext _ e2 e (Hsame c)), <- (Hsame c).
      apply (IHhit r k' t2 old); [done | done | congruence | | ].
      * by rewrite Hsame_ref.
      * intros r' k'' t'' old'' Hlt Hr' Ht'' Hid''.
        assert (k'' ≠ k) as Hk''.
        { apply Hrest_ne. apply list_elem_of_lookup. eauto. }
        destruct (Hid2 k'' t'' Hk'' Ht'') as (t1 & Ht1 & Hsame1).
        rewrite Hsame_ref.
        apply (Hfirst (S r') k'' t1 old''); [lia | done | done | congruence].
  - intros Hnone c.
    assert (is_ref oldk e = false) as Hno.
    { apply (Hnone k el oldk); [by left | done | done]. }
    destruct (Hskip Hno) as [Hsame Hsame_ref].
    rewrite <- (Hsame c). apply IHmiss.
    intros k' t2 old2 Hk' Ht2 Hid2'. rewrite Hsame_ref.
    destruct (Hid2 k' t2 (Hrest_ne k' Hk') Ht2) as (t & Ht & Hsame_id).
    apply (Hnone k' t old2); [by right | done | congruence].
Qed.

(** X5: what the loop makes of the [href] and the [for] of any element,
    where no matching identifier has a quote or a backslash in it or makes
    the selector built from it read as markup (a [<], a letter right after
    it and a [>] further on), and no draw makes an identifier that a
    matching element already has.  Take
    the first element in document order that matches the pattern and whose
    identifier the element refers to, by [href="#id"] or by [for="id"]:
    every non-empty [href] and [for] of the element ends up referring to
    the new identifier of that one, whichever of the two attributes made
    the reference and whatever the other one held; an empty or absent
    attribute is left as it is.  An element that refers to no matching
    identifier keeps both attributes. *)
Theorem references_as_the_loop_leaves_them
    (d d' : Document) (w w' : World) :
  remapIds d w = (Ok d', w') →
  (∀ el, el ∈ elems d → is_auto_id el = true →
         selector_safe (default "undefined" (Cheerio.attr el "id")) = true) →
  (∀ el, el ∈ elems d → is_auto_id el = true →
         is_html (refs_selector (default "undefined" (Cheerio.attr el "id")))
         = false) →
  (∀ r el, r < length (Cheerio.select is_auto_id (elems d)) →
           el ∈ elems d → is_auto_id el = true →
           Cheerio.attr el "id"
           ≠ Some ("id-" +:+ uuid_source w (drawn w + r))) →
  ∀ j e e', elems d !! j = Some e → elems d' !! j = Some e' →
    (∀ k t old,
       elems d !! k = Some t → is_auto_id t = true →
       Cheerio.attr t "id" = Some old → is_ref old e = true →
       (∀ k' t' old', k' < k → elems d !! k' = Some t' →
          is_auto_id t' = true → Cheerio.attr t' "id" = Some old' →
          is_ref old' e = false) →
       ∃ t' new, elems d' !! k = Some t' ∧
         Cheerio.attr t' "id" = Some new ∧
         ∀ c, Cheerio.attr e' (ref_attr c)
              = if Cheerio.has_attr e (ref_attr c)
                then Some (ref_text c new)
                else Cheerio.attr e (ref_attr c)) ∧
    ((∀ t old, t ∈ elems d → is_auto_id t = true →
               Cheerio.attr t "id" = Some old → is_ref old e = false) →
     ∀ c, Cheerio.attr e' (ref_attr c) = Cheerio.attr e (ref_attr c)).
Proof.
  intros Hrun Hsafe Htext Hfresh j e e' Hj Hj'.
  apply remapIds_ok in Hrun as [_ Hrun].
  pose proof (remap_each_ok _ _ _ _ _ _ (NoDup_select _ _) (select_lt _ _)
                Hrun) as (_ & _ & _ & Hnew).
  assert (Hsel : ∀ k, k ∈ Cheerio.select is_auto_id (elems d) →
            ∃ el old, elems d !! k = Some el ∧
              Cheerio.attr el "id" = Some old ∧ old ≠ "" ∧
              selector_safe old = true ∧
              is_html (refs_selector old) = false).
  { intros k (el & Hel & Hauto)%elem_of_select.
    pose proof Hauto as [rest Hid]%is_auto_id_iff.
    exists el, (String "i" rest). split; [done|]. split; [done|].
    split; [done|].
    assert (el ∈ elems d) as Hin by (apply list_elem_of_lookup; eauto).
    specialize (Hsafe el Hin Hauto). specialize (Htext el Hin Hauto).
    rewrite Hid in Hsafe, Htext. done. }
  assert (Hfresh' : ∀ r k el,
            r < length (Cheerio.select is_auto_id (elems d)) →
            k ∈ Cheerio.select is_auto_id (elems d) →
            elems d !! k = Some el →
            Cheerio.attr el "id"
            ≠ Some ("id-" +:+ uuid_source w (drawn w + r))).
  { intros r k el Hr (el0 & Hel0 & Hauto)%elem_of_select Hel.
    assert (el0 = el) as -> by congruence.
    apply Hfresh; [done| |done]. apply list_elem_of_lookup. eauto. }
  pose proof (remap_each_refs_general _ _ _ _ _ (NoDup_select _ _) Hsel
                Hfresh' Hrun j e e' Hj Hj') as [Hhit Hmiss].
  split.
  - intros k t old Ht Hauto Hid Href Hfirst.
    assert (k ∈ Cheerio.select is_auto_id (elems d)) as Hin
      by (apply elem_of_select; eauto).
    apply list_elem_of_lookup in Hin as [r Hr].
    destruct (Hnew r k Hr) as (t' & Ht' & Hid').
    exists t', ("id-" +:+ uuid_source w (drawn w + r)).
    split; [done|]. split; [done|].
    apply (Hhit r k t old); [done..|].
    intros r' k' t0 old0 Hlt Hr' Ht0 Hid0.
    apply (Hfirst k' t0 old0); [|done| |done].
    + by eapply select_from_increasing.
    + assert (k' ∈ Cheerio.select is_auto_id (elems d)) as Hin'
        by (apply list_elem_of_lookup; eauto).
      apply elem_of_select in Hin' as (t1 & Ht1 & Hauto1). congruence.
  - intros Hnone. apply Hmiss.
    intros k t old (t0 & Ht0 & Hauto)%elem_of_select Ht Hid.
    assert (t0 = t) as -> by congruence.
    apply (Hnone t old); [|done..]. apply list_elem_of_lookup. eauto.
Qed.

End ReferencesInGeneral.

Lemma references_as_the_loop_leaves_them_witness :
  (∀ k t old,
     elems Example.crossed_ref_doc !! k = Some t → is_auto_id t = true →
     Cheerio.attr t "id" = Some old →
     is_ref old (Example.el "a" [("href", "#i2"); ("for", "i1")]) = true →
     (∀ k' t' old', k' < k →
        elems Example.crossed_ref_doc !! k' = Some t' →
        is_auto_id t' = true → Cheerio.attr t' "id" = Some old' →
        is_ref old' (Example.el "a" [("href", "#i2"); ("for", "i1")])
        = false) →
     ∃ t' new,
       elems (Example.remapped Example.crossed_ref_doc) !! k = Some t' ∧
       Cheerio.attr t' "id" = Some new ∧
       ∀ c, Cheerio.attr
              (Example.el "a"
                 [("href", "#id-3f2b8c1e-58a4-4d0b-9c57-0a1d6e4f7b21");
                  ("for", "id-3f2b8c1e-58a4-4d0b-9c57-0a1d6e4f7b21")])
              (ref_attr c)
            = if Cheerio.has_attr
                   (Example.el "a" [("href", "#i2"); ("for", "i1")])
                   (ref_attr c)
              then Some (ref_text c new)
              else Cheerio.attr
                     (Example.el "a" [("href", "#i2"); ("for", "i1")])
                     (ref_attr c)) ∧
  ((∀ t old, t ∈ elems Example.crossed_ref_doc → is_auto_id t = true →
             Cheerio.attr t "id" = Some old →
             is_ref old (Example.el "a" [("href", "#i2"); ("for", "i1")])
             = false) →
   ∀ c, Cheerio.attr
          (Example.el "a"
             [("href", "#id-3f2b8c1e-58a4-4d0b-9c57-0a1d6e4f7b21");
              ("for", "id-3f2b8c1e-58a4-4d0b-9c57-0a1d6e4f7b21")])
          (ref_attr c)
        = Cheerio.attr (Example.el "a" [("href", "#i2"); ("for", "i1")])
            (ref_attr c)).
Proof.
  apply (references_as_the_loop_leaves_them Example.select_raw
           Example.crossed_ref_doc
           (Example.remapped Example.crossed_ref_doc)
           Example.world (Example.world_after Example.crossed_ref_doc))
    with (j := 2).
  - vm_compute. reflexivity.
  - intros el Hel Hel_auto.
    repeat (apply elem_of_cons in Hel as [-> | Hel]);
      try (by apply elem_of_nil in Hel); by vm_compute.
  - intros el Hel Hel_auto.
    repeat (apply elem_of_cons in Hel as [-> | Hel]);
      try (by apply elem_of_nil in Hel); by vm_compute.
  - intros r el Hr Hel Hauto. change (length _) with 2 in Hr.
    destruct r as [|[|r]]; [| |lia];
      repeat (apply elem_of_cons in Hel as [-> | Hel]);
      try (by apply elem_of_nil in Hel); vm_compute; discriminate.
  - reflexivity.
  - vm_compute. reflexivity.
Defined.

(** ** The transform, end to end *)

Section Pipeline.

Variable juice : Js.value → JuiceOptions → Result string.
Variable load : string → Document.
Variable html_of : Document → string.
Variable select_raw : string → list Element → Result (list nat).
Variable route_matches : string → string → bool.
Variable express : Express.

Local Abbreviation remapIds := (Server.remapIds select_raw).
Local Abbreviation processHtml :=
  (Server.processHtml juice load html_of select_raw).
Local Abbreviation match_route := (Server.match_route route_matches).
Local Abbreviation app :=
  (Server.app juice load html_of select_raw route_matches express).

(** X6: [processHtml] returns a text whenever its input is truthy, the
    inliner returns, and no identifier that matches the pattern carries a
    quote or a backslash.  The text is the serialisation of a document
    with the tree the parser built and as many elements; one value was
    drawn per matching element; the inliner and the parser were each
    called once, in that order. *)
Theorem processHtml_returns (v : Js.value) (html : string) (w : World) :
  Js.truthy v = true →
  juice v Server.juice_options = Ok html →
  (∀ el, el ∈ elems (load html) → is_auto_id el = true →
         selector_safe (default "undefined" (Cheerio.attr el "id")) = true) →
  ∃ d' w',
    processHtml v w = (Ok (html_of d'), w') ∧
    tree d' = tree (load html) ∧
    length (elems d') = length (elems (load html)) ∧
    drawn w' = drawn w
               + length (Cheerio.select is_auto_id (elems (load html))) ∧
    log w' = (log w ++ [CallJuice v; CallLoad html])%list ∧
    files w' = files w.
Proof.
  intros Hv Hjuice Hsafe. rewrite processHtml_truthy by done. cbv zeta.
  rewrite Hjuice, remapIds_unfold.
  match goal with |- context [Server.remap_each ?f ?s ?l ?x] =>
    destruct (remap_each_world f s l x) as (_ & Hf & Hl);
    destruct (Server.remap_each f s l x) as [[els|e] w3] eqn:Hrun end.
  - apply remap_each_ok in Hrun as (Hlen & Hdrawn & _ & _);
      [|apply NoDup_select|apply select_lt].
    eexists _, _. split; [done|]. simpl in *.
    split; [done|]. split; [done|]. split; [done|].
    split; [by rewrite Hl, <- app_assoc | done].
  - apply remap_each_throw in Hrun as (k & el & Hk & Hel & Hbad);
      [|apply NoDup_select].
    apply elem_of_select in Hk as (el' & Hel' & Hauto).
    assert (el' = el) as -> by congruence.
    rewrite Hsafe in Hbad; [done| |done].
    apply list_elem_of_lookup. eauto.
Qed.

(** X7: a document in which no identifier starts with i passes through
    step 2 as it is.  The output of [processHtml] is then the
    serialisation of what the parser made of the inliner's output, no
    value is drawn, and the selector engine is never asked. *)
Theorem plain_documents_pass_through
    (v : Js.value) (html : string) (w : World) :
  Js.truthy v = true →
  juice v Server.juice_options = Ok html →
  (∀ el, el ∈ elems (load html) → is_auto_id el = false) →
  fst (processHtml v w) = Ok (html_of (load html)) ∧
  drawn (snd (processHtml v w)) = drawn w.
Proof.
  intros Hv Hjuice Hplain. rewrite processHtml_truthy by done. cbv zeta.
  rewrite Hjuice, remapIds_unfold. unfold Cheerio.select.
  rewrite select_from_nil by done. simpl.
  by destruct (load html).
Qed.

(** X8: when the inliner throws on the body of a request to either POST
    route, its error reaches the caller as it is: status 500 with the
    inliner's message in the failure body.  Nothing else happened on the
    way: the parser was not called, no value was drawn, and the log holds
    the call and one [console.error] line with the error. *)
Theorem juice_failure_reaches_the_caller
    (req : Request) (v : Js.value) (route : Route) (e : Error) (w : World) :
  match_route req = Some route →
  route = PostProcess ∨ route = PostProcessDownload →
  body req = Ok v → Js.truthy v = true →
  juice v Server.juice_options = Throw e →
  ∃ resp w',
    app req w = (Ok resp, w') ∧
    status resp = 500 ∧
    res_body resp
    = Json (Js.Obj [("success", Js.Bool false);
                    ("error", Js.Str "Failed to process HTML");
                    ("message", Js.Str (message e))]) ∧
    log w' = (log w ++ [CallJuice v;
                        ConsoleError "Processing error:" e])%list ∧
    drawn w' = drawn w.
Proof.
  intros Hroute Hpost Hbody Hv Hjuice.
  rewrite (post_routes_outcome _ _ _ _ _ _ _ _ _ _ Hroute Hpost Hbody Hv).
  rewrite processHtml_truthy by done. cbv zeta. rewrite Hjuice.
  eexists _, _. split; [done|].
  match goal with |- status (Res.json _ _ ?body ?r) = _ ∧ _ =>
    destruct (json_plain express req body r
                (match_route_post _ _ _ Hroute Hpost) eq_refl eq_refl)
      as [-> ->] end.
  simpl.
  split; [done|]. split; [done|]. split; [by rewrite <- app_assoc | done].
Qed.

(** X9: the file name of an answer.  A request to either POST route whose
    body the transform accepts is answered with the name given in the
    [X-Filename] header, taken as it is, or with [newsletter.html] when
    the header is absent or empty: as the [filename] of the JSON answer of
    /process, and between quotes in the [Content-Disposition] of the
    download.  The [Content-Type] of the download is what the framework
    makes of [text/html; charset=UTF-8] when it sets the charset of a text
    it sends: the route's own spelling of it does not reach the answer
    as it is. *)
Theorem answers_carry_the_file_name
    (req : Request) (v : Js.value) (route : Route) (html : string)
    (w : World) :
  match_route req = Some route →
  route = PostProcess ∨ route = PostProcessDownload →
  body req = Ok v → Js.truthy v = true →
  fst (processHtml v w) = Ok html →
  ∃ resp w' name,
    app req w = (Ok resp, w') ∧ status resp = 200 ∧
    (∀ s, req_headers req !! "x-filename" = Some s → s ≠ "" → name = s) ∧
    (req_headers req !! "x-filename" = None ∨
     req_headers req !! "x-filename" = Some "" →
     name = "newsletter.html") ∧
    match route with
    | PostProcess =>
        res_body resp
        = Json (Js.Obj [("success", Js.Bool true); ("html", Js.Str html);
                        ("filename", Js.Str name)])
    | _ =>
        res_body resp = Text html ∧
        res_headers resp !! "Content-Type"
        = Some (set_charset express "text/html; charset=UTF-8") ∧
        res_headers resp !! "Content-Disposition"
        = Some ("attachment; filename=" +:+ quote +:+ name +:+ quote)
    end.
Proof.
  intros Hroute Hpost Hbody Hv Hout.
  pose proof (match_route_post _ _ _ Hroute Hpost) as Hmethod.
  rewrite (post_routes_outcome _ _ _ _ _ _ _ _ _ _ Hroute Hpost Hbody Hv).
  destruct (processHtml v w) as [[html'|err] w1]; simpl in Hout; [|done].
  injection Hout as ->.
  assert (Hname :
    (∀ s, req_headers req !! "x-filename" = Some s → s ≠ "" →
          Server.req_filename req = s) ∧
    (req_headers req !! "x-filename" = None ∨
     req_headers req !! "x-filename" = Some "" →
     Server.req_filename req = "newsletter.html")).
  { unfold Server.req_filename, Js.or_default. split.
    - intros s -> Hs. by destruct (String.eqb_spec s "").
    - by intros [-> | ->]. }
  destruct Hname as [Hgiven Hdefault].
  destruct Hpost as [-> | ->];
    eexists _, w1, (Server.req_filename req);
    (split; [reflexivity|]);
    unfold Res.send, Res.json; rewrite finish_plain by done;
    (split; [done|]); (split; [done|]); (split; [done|]); [done|].
  simpl. split; [done|]. split; [by rewrite lookup_insert_eq|].
  rewrite lookup_insert_ne by done. by rewrite lookup_insert_eq.
Qed.

Lemma processHtml_quiet v w :
  ∃ l, log (snd (processHtml v w)) = (log w ++ l)%list ∧
       ∀ lb e, ConsoleError lb e ∉ l.
Proof.
  destruct (processHtml_effects juice load html_of select_raw v w)
    as (_ & _ & l & Hl & _ & Hkinds).
  exists l. split; [done|]. intros lb e Hin.
  by destruct (Hkinds _ Hin) as [[? ?] | [? ?]].
Qed.

(** Closes the three facts about an answer and the lines [l] it added to
    the log, [l] being given: the status is one of the five, a 500 ends
    [l] with its [console.error] line, anything else wrote none. *)
Ltac answered Hquiet :=
  unfold Res.sendStatus;
  try match goal with
      | |- context [status (Res.json ?e ?rq ?v ?r)] =>
          first [ rewrite (status_json_error e rq v r) by (simpl; lia)
                | destruct (status_json_ok e rq v r eq_refl) as [-> | ->] ]
      | |- context [status (Res.send ?e ?rq ?t ?r)] =>
          first [ rewrite (status_send_error e rq t r) by (simpl; lia)
                | destruct (status_send_ok e rq t r eq_refl) as [-> | ->] ]
      end;
  let quiet :=
    (let lb := fresh "lb" in let e0 := fresh "e0" in let Hin := fresh "Hin" in
     intros lb e0 Hin;
     repeat (apply elem_of_cons in Hin as [Hin | Hin]; [done|]);
     first [by apply elem_of_nil in Hin | by eapply Hquiet]) in
  split; [simpl; tauto|]; split;
  [ first [ by (intros ?; simpl in *; congruence)
          | intros _; eexists _, _, _; split; [reflexivity|]; quiet ]
  | first [ by (intros ?; simpl in *; congruence)
          | intros _; quiet ] ].

(** X10: every request is answered, and no error escapes the stack.  The
    status is 200, 304 (a GET or a HEAD whose validators match the
    answer), 400, 404 or 500; an answer with status 500 comes with
    exactly one [console.error] line, written last, that carries the
    error; an answer with any other status writes none. *)
Theorem every_request_is_answered (req : Request) (w : World) :
  ∃ resp w' l,
    app req w = (Ok resp, w') ∧
    log w' = (log w ++ l)%list ∧
    (status resp = 200 ∨ status resp = 304 ∨ status resp = 400 ∨
     status resp = 404 ∨ status resp = 500) ∧
    (status resp = 500 →
       ∃ l0 label err, l = (l0 ++ [ConsoleError label err])%list ∧
                       ∀ lb e, ConsoleError lb e ∉ l0) ∧
    (status resp ≠ 500 → ∀ lb e, ConsoleError lb e ∉ l).
Proof.
  destruct (body req) as [v|err] eqn:Hbody.
  2:{ unfold Server.app. rewrite Hbody.
      eexists _, _, [ConsoleError "" err]. split; [reflexivity|].
      split; [done|].
      rewrite status_send_error by (simpl; lia). simpl.
      split; [tauto|]. split.
      - intros _. exists [], "", err. split; [done|].
        by intros lb e ?%elem_of_nil.
      - done. }
  rewrite (app_parsed _ _ _ _ _ _ _ _ _ Hbody). unfold Server.cors.
  destruct (String.eqb (method req) "OPTIONS").
  { eexists _, _, []. split; [reflexivity|]. split; [by rewrite app_nil_r|].
    answered I. }
  unfold Server.router.
  destruct (match_route req) as [[| | |]|].
  - unfold Server.get_root, try_catch, readFile.
    unfold bind at 1; unfold bind at 1; simpl.
    destruct (files w Server.template_path) as [content|err]; simpl.
    + unfold bind at 1.
      match goal with |- context [processHtml ?x ?y] =>
        destruct (processHtml_quiet x y) as (lp & Hlp & Hquiet);
        destruct (processHtml x y) as [[html|err] w1] end;
        simpl in Hlp.
      * eexists _, _, (ReadFile Server.template_path :: lp).
        split; [reflexivity|]. split; [by rewrite Hlp, <- app_assoc|].
        answered Hquiet.
      * destruct (Server.is_enoent err).
        -- eexists _, _, (ReadFile Server.template_path :: lp).
           split; [reflexivity|]. split; [by rewrite Hlp, <- app_assoc|].
           answered Hquiet.
        -- eexists _, _, ((ReadFile Server.template_path :: lp)
                          ++ [ConsoleError "" err])%list.
           split; [reflexivity|].
           split; [simpl; by rewrite Hlp, <- !app_assoc|].
           answered Hquiet.
    + destruct (Server.is_enoent err).
      * eexists _, _, [ReadFile Server.template_path].
        split; [reflexivity|]. split; [done|]. answered I.
      * eexists _, _, ([ReadFile Server.template_path]
                       ++ [ConsoleError "" err])%list.
        split; [reflexivity|]. split; [simpl; by rewrite <- app_assoc|].
        answered I.
  - unfold Server.get_download, try_catch, readFile.
    unfold bind at 1; unfold bind at 1; simpl.
    destruct (files w Server.template_path) as [content|err]; simpl.
    + unfold bind at 1.
      match goal with |- context [processHtml ?x ?y] =>
        destruct (processHtml_quiet x y) as (lp & Hlp & Hquiet);
        destruct (processHtml x y) as [[html|err] w1] end;
        simpl in Hlp.
      * eexists _, _, (ReadFile Server.template_path :: lp).
        split; [reflexivity|]. split; [by rewrite Hlp, <- app_assoc|].
        answered Hquiet.
      * destruct (Server.is_enoent err).
        -- eexists _, _, (ReadFile Server.template_path :: lp).
           split; [reflexivity|]. split; [by rewrite Hlp, <- app_assoc|].
           answered Hquiet.
        -- eexists _, _, ((ReadFile Server.template_path :: lp)
                          ++ [ConsoleError "" err])%list.
           split; [reflexivity|].
           split; [simpl; by rewrite Hlp, <- !app_assoc|].
           answered Hquiet.
    + destruct (Server.is_enoent err).
      * eexists _, _, [ReadFile Server.template_path].
        split; [reflexivity|]. split; [done|]. answered I.
      * eexists _, _, ([ReadFile Server.template_path]
                       ++ [ConsoleError "" err])%list.
        split; [reflexivity|]. split; [simpl; by rewrite <- app_assoc|].
        answered I.
  - rewrite post_process_outcome.
    destruct (Js.truthy _).
    + match goal with |- context [processHtml ?x ?y] =>
        destruct (processHtml_quiet x y) as (lp & Hlp & Hquiet);
        destruct (processHtml x y) as [[html|err] w1] end;
        simpl in Hlp.
      * eexists _, _, lp. split; [reflexivity|]. split; [done|].
        answered Hquiet.
      * eexists _, _, (lp ++ [ConsoleError "Processing error:" err])%list.
        split; [reflexivity|]. split; [simpl; by rewrite Hlp, <- app_assoc|].
        answered Hquiet.
    + eexists _, _, []. split; [reflexivity|]. split; [by rewrite app_nil_r|].
      answered I.
  - rewrite post_process_download_outcome.
    destruct (Js.truthy _).
    + match goal with |- context [processHtml ?x ?y] =>
        destruct (processHtml_quiet x y) as (lp & Hlp & Hquiet);
        destruct (processHtml x y) as [[html|err] w1] end;
        simpl in Hlp.
      * eexists _, _, lp. split; [reflexivity|]. split; [done|].
        answered Hquiet.
      * eexists _, _, (lp ++ [ConsoleError "Processing error:" err])%list.
        split; [reflexivity|]. split; [simpl; by rewrite Hlp, <- app_assoc|].
        answered Hquiet.
    + eexists _, _, []. split; [reflexivity|]. split; [by rewrite app_nil_r|].
      answered I.
  - eexists _, _, []. split; [reflexivity|]. split; [by rewrite app_nil_r|].
    answered I.
Qed.

End Pipeline.

Lemma processHtml_returns_witness :
  ∃ d' w',
    Server.processHtml Example.juice (Example.load Example.crossed_ref_doc)
      Example.html_of Example.select_raw (Js.Str "<div id=i1></div>")
      Example.world
    = (Ok (Example.html_of d'), w') ∧
    tree d' = tree Example.crossed_ref_doc ∧
    length (elems d') = length (elems Example.crossed_ref_doc) ∧
    drawn w' = drawn Example.world
               + length (Cheerio.select is_auto_id
                           (elems Example.crossed_ref_doc)) ∧
    log w' = (log Example.world
              ++ [CallJuice (Js.Str "<div id=i1></div>");
                  CallLoad "<div id=i1></div>"])%list ∧
    files w' = files Example.world.
Proof.
  apply (processHtml_returns Example.juice
           (Example.load Example.crossed_ref_doc) Example.html_of
           Example.select_raw (Js.Str "<div id=i1></div>")
           "<div id=i1></div>" Example.world).
  - reflexivity.
  - reflexivity.
  - intros el Hel Hauto. unfold Example.load in Hel.
    repeat (apply elem_of_cons in Hel as [-> | Hel]);
      try (by apply elem_of_nil in Hel); by vm_compute.
Defined.

Lemma plain_documents_pass_through_witness :
  fst (Server.processHtml Example.juice (Example.load Example.plain_doc)
         Example.html_of Example.select_raw (Js.Str "<p id=main></p>")
         Example.world)
  = Ok (Example.html_of Example.plain_doc) ∧
  drawn (snd (Server.processHtml Example.juice
                (Example.load Example.plain_doc) Example.html_of
                Example.select_raw (Js.Str "<p id=main></p>")
                Example.world))
  = drawn Example.world.
Proof.
  apply (plain_documents_pass_through Example.juice
           (Example.load Example.plain_doc) Example.html_of
           Example.select_raw (Js.Str "<p id=main></p>")
           "<p id=main></p>" Example.world).
  - reflexivity.
  - reflexivity.
  - intros el Hel. unfold Example.load in Hel.
    repeat (apply elem_of_cons in Hel as [-> | Hel]);
      try (by apply elem_of_nil in Hel); by vm_compute.
Defined.

Lemma juice_failure_reaches_the_caller_witness :
  ∃ resp w',
    Example.app Example.label_doc Example.object_post Example.world
    = (Ok resp, w') ∧
    status resp = 500 ∧
    res_body resp
    = Json (Js.Obj [("success", Js.Bool false);
                    ("error", Js.Str "Failed to process HTML");
                    ("message", Js.Str "html.replace is not a function")]) ∧
    log w'
    = (log Example.world
       ++ [CallJuice (Js.Obj [("a", Js.Num 1)]);
           ConsoleError "Processing error:"
             (mkError "html.replace is not a function" None)])%list ∧
    drawn w' = drawn Example.world.
Proof.
  apply (juice_failure_reaches_the_caller Example.juice
           (Example.load Example.label_doc) Example.html_of
           Example.select_raw Example.route_matches Example.express
           Example.object_post (Js.Obj [("a", Js.Num 1)]) PostProcess
           (mkError "html.replace is not a function" None) Example.world);
    first [reflexivity | by left].
Defined.

Lemma answers_carry_the_file_name_witness :
  ∃ resp w' name,
    Example.app Example.plain_doc Example.named_download Example.world
    = (Ok resp, w') ∧ status resp = 200 ∧
    (∀ s, req_headers Example.named_download !! "x-filename" = Some s →
          s ≠ "" → name = s) ∧
    (req_headers Example.named_download !! "x-filename" = None ∨
     req_headers Example.named_download !! "x-filename" = Some "" →
     name = "newsletter.html") ∧
    res_body resp = Text (Example.html_of Example.plain_doc) ∧
    res_headers resp !! "Content-Type" = Some "text/html; charset=utf-8" ∧
    res_headers resp !! "Content-Disposition"
    = Some ("attachment; filename=" +:+ quote +:+ name +:+ quote).
Proof.
  apply (answers_carry_the_file_name Example.juice
           (Example.load Example.plain_doc) Example.html_of
           Example.select_raw Example.route_matches Example.express
           Example.named_download (Js.Str "<p id=main></p>")
           PostProcessDownload (Example.html_of Example.plain_doc)
           Example.world);
    first [reflexivity | by right].
Defined.

(** ** The file system *)

Section Files.

Variable juice : Js.value → JuiceOptions → Result string.
Variable load : string → Document.
Variable html_of : Document → string.
Variable select_raw : string → list Element → Result (list nat).
Variable route_matches : string → string → bool.
Variable express : Express.

Local Abbreviation processHtml :=
  (Server.processHtml juice load html_of select_raw).
Local Abbreviation match_route := (Server.match_route route_matches).
Local Abbreviation app :=
  (Server.app juice load html_of select_raw route_matches express).

Lemma processHtml_reads_nothing v w :
  files (snd (processHtml v w)) = files w ∧
  ∃ l, log (snd (processHtml v w)) = (log w ++ l)%list ∧
       ∀ p, ReadFile p ∉ l.
Proof.
  destruct (processHtml_effects juice load html_of select_raw v w)
    as (Hf & _ & l & Hl & _ & Hkinds).
  split; [done|]. exists l. split; [done|]. intros p Hin.
  by destruct (Hkinds _ Hin) as [[? ?] | [? ?]].
Qed.

(** Closes [∀ p, ReadFile p ∈ l → ...] for a given [l], of which at most
    the head is a read. *)
Ltac reads Hnone :=
  let p := fresh "p" in let Hin := fresh "Hin" in
  intros p Hin;
  repeat (apply elem_of_app in Hin as [Hin | Hin]);
  repeat (apply elem_of_cons in Hin as [Hin | Hin]);
  first [ by apply elem_of_nil in Hin
        | by (injection Hin as ->; split; [reflexivity | tauto])
        | done
        | by (exfalso; eapply Hnone; eassumption) ].

(** X11: the only file the server ever reads is [template.html], and only
    the two GET routes read it, once per request; the POST routes, the
    OPTIONS answer and the error handler read nothing.  No request
    changes what the files hold. *)
Theorem only_the_template_is_read (req : Request) (w : World) :
  ∃ resp w' l,
    app req w = (Ok resp, w') ∧
    files w' = files w ∧
    log w' = (log w ++ l)%list ∧
    ∀ p, ReadFile p ∈ l →
      p = "template.html" ∧
      (match_route req = Some GetRoot ∨ match_route req = Some GetDownload).
Proof.
  destruct (body req) as [v|err] eqn:Hbody.
  2:{ unfold Server.app. rewrite Hbody.
      eexists _, _, _. split; [reflexivity|]. split; [done|].
      split; [reflexivity|]. reads I. }
  rewrite (app_parsed _ _ _ _ _ _ _ _ _ Hbody). unfold Server.cors.
  destruct (String.eqb (method req) "OPTIONS").
  { eexists _, _, []. split; [reflexivity|]. split; [done|].
    split; [by rewrite app_nil_r|]. reads I. }
  unfold Server.router.
  destruct (match_route req) as [[| | |]|] eqn:Hroute.
  - unfold Server.get_root, try_catch, readFile.
    unfold bind at 1; unfold bind at 1; simpl.
    destruct (files w Server.template_path) as [content|err]; simpl.
    + unfold bind at 1.
      match goal with |- context [processHtml ?x ?y] =>
        destruct (processHtml_reads_nothing x y) as (Hf & lp & Hlp & Hnone);
        destruct (processHtml x y) as [[html|err] w1] end;
        simpl in Hlp, Hf; [|destruct (Server.is_enoent err)];
        eexists _, _, _; (split; [reflexivity|]); simpl;
        (split; [done|]); rewrite Hlp, <- ?app_assoc;
        (split; [reflexivity|]); reads Hnone.
    + destruct (Server.is_enoent err); eexists _, _, _;
        (split; [reflexivity|]); simpl; (split; [done|]);
        rewrite <- ?app_assoc; (split; [reflexivity|]); reads I.
  - unfold Server.get_download, try_catch, readFile.
    unfold bind at 1; unfold bind at 1; simpl.
    destruct (files w Server.template_path) as [content|err]; simpl.
    + unfold bind at 1.
      match goal with |- context [processHtml ?x ?y] =>
        destruct (processHtml_reads_nothing x y) as (Hf & lp & Hlp & Hnone);
        destruct (processHtml x y) as [[html|err] w1] end;
        simpl in Hlp, Hf; [|destruct (Server.is_enoent err)];
        eexists _, _, _; (split; [reflexivity|]); simpl;
        (split; [done|]); rewrite Hlp, <- ?app_assoc;
        (split; [reflexivity|]); reads Hnone.
    + destruct (Server.is_enoent err); eexists _, _, _;
        (split; [reflexivity|]); simpl; (split; [done|]);
        rewrite <- ?app_assoc; (split; [reflexivity|]); reads I.
  - rewrite post_process_outcome.
    destruct (Js.truthy _).
    + match goal with |- context [processHtml ?x ?y] =>
        destruct (processHtml_reads_nothing x y) as (Hf & lp & Hlp & Hnone);
        destruct (processHtml x y) as [[html|err] w1] end;
        simpl in Hlp, Hf; eexists _, _, _; (split; [reflexivity|]); simpl;
        (split; [done|]); rewrite Hlp, <- ?app_assoc;
        (split; [reflexivity|]); reads Hnone.
    + eexists _, _, []. split; [reflexivity|]. split; [done|].
      split; [by rewrite app_nil_r|]. reads I.
  - rewrite post_process_download_outcome.
    destruct (Js.truthy _).
    + match goal with |- context [processHtml ?x ?y] =>
        destruct (processHtml_reads_nothing x y) as (Hf & lp & Hlp & Hnone);
        destruct (processHtml x y) as [[html|err] w1] end;
        simpl in Hlp, Hf; eexists _, _, _; (split; [reflexivity|]); simpl;
        (split; [done|]); rewrite Hlp, <- ?app_assoc;
        (split; [reflexivity|]); reads Hnone.
    + eexists _, _, []. split; [reflexivity|]. split; [done|].
      split; [by rewrite app_nil_r|]. reads I.
  - eexists _, _, []. split; [reflexivity|]. split; [done|].
    split; [by rewrite app_nil_r|]. reads I.
Qed.

End Files.

(** ** Identifiers stay distinct *)

Section Distinct.

Variable select_raw : string → list Element → Result (list nat).

Local Abbreviation remapIds := (Server.remapIds select_raw).

(** X12: step 2 keeps the identifiers of a document distinct, and makes
    them so where they were not.  When the values drawn are pairwise
    distinct and the identifiers that do not match the pattern are
    pairwise distinct in the input, no two elements of the output share an
    identifier, even if matching identifiers were repeated in the input. *)
Theorem distinct_ids_stay_distinct (d d' : Document) (w w' : World) :
  remapIds d w = (Ok d', w') →
  (∀ r s, r < length (Cheerio.select is_auto_id (elems d)) →
          s < length (Cheerio.select is_auto_id (elems d)) →
          uuid_source w (drawn w + r) = uuid_source w (drawn w + s) →
          r = s) →
  (∀ i j a b x, i ≠ j →
     elems d !! i = Some a → elems d !! j = Some b →
     is_auto_id a = false → is_auto_id b = false →
     Cheerio.attr a "id" = Some x → Cheerio.attr b "id" ≠ Some x) →
  ∀ i j a b x, i ≠ j →
    elems d' !! i = Some a → elems d' !! j = Some b →
    Cheerio.attr a "id" = Some x → Cheerio.attr b "id" ≠ Some x.
Proof.
  intros Hrun Hdraws Hinput i j a b x Hij Ha Hb Hx.
  apply remapIds_ok in Hrun as [_ Hrun].
  apply remap_each_ok in Hrun as (Hlen & _ & Hframe & Hnew);
    [|apply NoDup_select|apply select_lt].
  (* an element outside the selection has the identifier it had, and
     that one does not match the pattern *)
  assert (Hout : ∀ k e, k ∉ Cheerio.select is_auto_id (elems d) →
            elems d' !! k = Some e →
            ∃ e0, elems d !! k = Some e0 ∧ is_auto_id e0 = false ∧
                  Cheerio.attr e "id" = Cheerio.attr e0 "id").
  { intros k e Hk He. destruct (Hframe k e He) as (e0 & He0 & _ & _ & Hid).
    exists e0. split; [done|]. split; [|by apply Hid].
    destruct (is_auto_id e0) eqn:Hauto; [|done].
    exfalso. apply Hk, elem_of_select. eauto. }
  (* an element of the selection has the identifier made from its draw *)
  assert (Hin : ∀ k e, k ∈ Cheerio.select is_auto_id (elems d) →
            elems d' !! k = Some e →
            ∃ r, Cheerio.select is_auto_id (elems d) !! r = Some k ∧
                 Cheerio.attr e "id"
                 = Some ("id-" +:+ uuid_source w (drawn w + r))).
  { intros k e [r Hr]%list_elem_of_lookup He.
    destruct (Hnew r k Hr) as (e1 & He1 & Hid).
    exists r. split; [done|]. congruence. }
  destruct (decide (i ∈ Cheerio.select is_auto_id (elems d))) as [Hi | Hi];
    destruct (decide (j ∈ Cheerio.select is_auto_id (elems d))) as [Hj | Hj].
  - destruct (Hin i a Hi Ha) as (r & Hr & Hida).
    destruct (Hin j b Hj Hb) as (s & Hs & Hidb).
    rewrite Hidb. intros Heq. rewrite Hida in Hx.
    assert (r = s) as ->.
    { apply Hdraws; [by eapply lookup_lt_Some..|].
      apply new_id_inj. congruence. }
    congruence.
  - destruct (Hin i a Hi Ha) as (r & _ & Hida).
    destruct (Hout j b Hj Hb) as (b0 & _ & Hauto & Hidb).
    intros Heq. rewrite Hx in Hida. injection Hida as ->.
    rewrite Hidb in Heq. apply is_auto_id_new in Heq. congruence.
  - destruct (Hout i a Hi Ha) as (a0 & _ & Hauto & Hida).
    destruct (Hin j b Hj Hb) as (s & _ & Hidb).
    intros Heq. rewrite Heq in Hidb. injection Hidb as ->.
    rewrite Hida in Hx. apply is_auto_id_new in Hx. congruence.
  - destruct (Hout i a Hi Ha) as (a0 & Ha0 & Hauto_a & Hida).
    destruct (Hout j b Hj Hb) as (b0 & Hb0 & Hauto_b & Hidb).
    rewrite Hidb. apply (Hinput i j a0 b0 x); [done..|congruence].
Qed.

End Distinct.

Lemma distinct_ids_stay_distinct_witness :
  ∃ a b,
    elems (Example.remapped Example.words_doc) !! 0 = Some a ∧
    elems (Example.remapped Example.words_doc) !! 1 = Some b ∧
    Cheerio.attr a "id"
    = Some "id-3f2b8c1e-58a4-4d0b-9c57-0a1d6e4f7b21" ∧
    Cheerio.attr b "id"
    ≠ Some "id-3f2b8c1e-58a4-4d0b-9c57-0a1d6e4f7b21".
Proof.
  eexists _, _. split; [reflexivity|]. split; [reflexivity|].
  split; [reflexivity|].
  apply (distinct_ids_stay_distinct Example.select_raw Example.words_doc
           (Example.remapped Example.words_doc) Example.world
           (Example.world_after Example.words_doc)) with (i := 0) (j := 1)
    (a := Example.el "h1"
            [("id", "id-3f2b8c1e-58a4-4d0b-9c57-0a1d6e4f7b21")]).
  - vm_compute. reflexivity.
  - intros r s Hr Hs _. change (length _) with 1 in Hr, Hs. lia.
  - intros i j a b x Hij Ha Hb Hauto_a Hauto_b Hx.
    destruct i as [|[|[|[|i]]]], j as [|[|[|[|j]]]];
      try done; simpl in Ha, Hb;
      try (injection Ha as <-); try (injection Hb as <-);
      try discriminate Hauto_a; try discriminate Hauto_b;
      vm_compute in Hx; try discriminate Hx;
      injection Hx as <-; vm_compute; discriminate.
  - done.
  - vm_compute. reflexivity.
  - reflexivity.
  - reflexivity.
Defined.
